(** * mock-comfy: the job queue of the ComfyUI mock server (main.go)

    A shallow embedding of [main.go].  The server keeps one [ComfyUIMock]
    value shared by the HTTP handlers and by the [processQueue] goroutines.
    Every region between [m.mu.Lock()] and [m.mu.Unlock()] is one atomic
    step of the model; the reads of [m.runningTask] that [processQueue]
    performs after it has released the lock (lines 163 and 164) are steps
    of their own.  A [*PromptInfo] is an index into the [store] of
    allocated [PromptInfo] objects, so that [m.prompts] and
    [m.runningTask] alias the same object as they do in Go.

    What the program does not decide is an argument of the step that needs
    it: the value drawn by [uuid.New()], the order in which [range] visits
    the map [m.prompts], the answers of the operating system to the calls
    of [copyAndRenameImage], and the goroutine that moves next.  The sleep
    of [processPrompt] is the time a goroutine spends at [PQ_process]. *)

From Stdlib Require Import ZArith Ascii.
From Stdlib.Strings Require Import Byte.
From stdpp Require Import base decidable option list strings vector gmap fin_maps.

#[local] Set Warnings "-register-all,-clear-no-such-hyp".
Local Open Scope Z_scope.

(** ** Values carried by the handlers *)

(** [interface{}] values as the handlers build them: [gin.H] and
    [map[string]interface{}] literals are [JObject] with the fields in the
    order of the source literal, [[]interface{}] and [[]string] are
    [JArray]. A nil map is [JNull]. *)
Inductive json : Type :=
| JNull
| JBool (b : bool)
| JInt (z : Z)
| JString (s : string)
| JArray (l : list json)
| JObject (fields : list (string * json)).

(** What [c.JSON(code, obj)] sends. *)
Record response : Type := JSON { code : Z; body : json }.

Definition StatusOK : Z := 200.
Definition StatusBadRequest : Z := 400.
Definition StatusNotFound : Z := 404.

(** ** Go's [int] and string slicing *)

(** [int] on the 64-bit targets of the Dockerfile's build: arithmetic wraps
    around in two's complement. *)
Definition int_wrap (z : Z) : Z := (z + 2 ^ 63) mod 2 ^ 64 - 2 ^ 63.

(** [s[:n]]: the first [n] bytes of [s]; a run-time panic ([None]) when
    [n] exceeds [len(s)]. *)
Definition slice_to (s : string) (n : nat) : option string :=
  if decide (n ≤ String.length s)%nat then Some (String.substring 0 n s) else None.

(** ** The id generator *)

(** [uuid.UUID] is [[16]byte]. *)
Definition UUID : Type := vec Byte.byte 16.

Definition hextable : string := "0123456789abcdef".

Definition hex_digit (n : N) : Ascii.ascii :=
  default "0"%char (String.get (N.to_nat n) hextable).

(** [hex.Encode]: two lower-case hexadecimal digits per byte. *)
Fixpoint hex_Encode (src : list Byte.byte) : string :=
  match src with
  | [] => ""
  | b :: rest =>
      String (hex_digit (N.shiftr (Byte.to_N b) 4))
        (String (hex_digit (N.land (Byte.to_N b) 15)) (hex_Encode rest))
  end.

(** Modelled from the spec: the id generator [uuid.New().String()] of the
    package github.com/google/uuid, which is not part of this repository.
    [String] renders the sixteen bytes in the canonical form
    xxxxxxxx-xxxx-xxxx-xxxx-xxxxxxxxxxxx. *)
Definition uuid_String (u : UUID) : string :=
  let b := vec_to_list u in
  hex_Encode (take 4 b) +:+ "-" +:+
  hex_Encode (take 2 (drop 4 b)) +:+ "-" +:+
  hex_Encode (take 2 (drop 6 b)) +:+ "-" +:+
  hex_Encode (take 2 (drop 8 b)) +:+ "-" +:+
  hex_Encode (drop 10 b).

(** [generatePromptID]; the value drawn by [uuid.New()] is the argument. *)
Definition generatePromptID (u : UUID) : string := uuid_String u.

(** ** Jobs and the manager *)

Record PromptInfo : Type := mkPromptInfo {
  Prompt : json;
  ClientID : string;
  Status : string;
  Output : option json;   (* [None] is the nil map *)
  ID : Z;
  PromptID : string
}.

Definition set_Status (s : string) (p : PromptInfo) : PromptInfo :=
  mkPromptInfo (Prompt p) (ClientID p) s (Output p) (ID p) (PromptID p).

Definition set_Output (o : option json) (p : PromptInfo) : PromptInfo :=
  mkPromptInfo (Prompt p) (ClientID p) (Status p) o (ID p) (PromptID p).

(** [ComfyUIMock] without its mutex: pointers are addresses in the store. *)
Record ComfyUIMock : Type := mkMock {
  prompts : gmap string nat;
  queueID : Z;
  runningTask : option nat
}.

Definition NewComfyUIMock : ComfyUIMock := mkMock ∅ 0 None.

(** Reading through a pointer.  Every pointer the program holds comes from
    the allocation in [handlePrompt], so that the zero value below is never
    read (lemma [consistent_run]). *)
Definition zero_PromptInfo : PromptInfo := mkPromptInfo JNull "" "" None 0 "".

Definition deref (st : list PromptInfo) (a : nat) : PromptInfo :=
  default zero_PromptInfo (st !! a).

(** ** Output production *)

(** [generateMockOutput]; [None] when [promptID[:8]] panics. *)
Definition generateMockOutput (promptID : string) : option json :=
  match slice_to promptID 8 with
  | None => None
  | Some short =>
      Some (JObject [("9", JObject [("images", JArray [
        JObject [("filename", JString (short +:+ ".png"));
                 ("subfolder", JString "");
                 ("type", JString "output")]])])])
  end.

(** The calls [copyAndRenameImage] makes to the operating system, in the
    order it makes them. *)
Inductive os_call : Type :=
| MkdirAll (path : string) (perm : Z)
| Open (name : string)
| Create (name : string)
| Copy (dst src : string)
| Close (name : string).

(** What the operating system answers to each of them: [None] is a nil
    error, [Some msg] an error whose [Error()] is [msg]. *)
Record os_results : Type := mkResults {
  r_MkdirAll : option string;
  r_Open : option string;
  r_Create : option string;
  r_Copy : option string
}.

Definition ModePerm : Z := 511.   (* 0o777 *)

(** [filepath.Join] on the build's target (separator [/]).  Go cleans the
    joined path; this is the joined path itself, which is what Go returns
    when [name] contains no separator and is neither empty, [.] nor [..].
    The one call here has [name] = output_<promptID[:8]>.jpg, so the
    definition is exact when [promptID[:8]] is [separator_free], as it is for
    every id of [generatePromptID] (lemma [separator_free_uuid]); it is not
    Go's function on ids that contain a separator. *)
Definition filepath_Join (dir name : string) : string := dir +:+ "/" +:+ name.

Definition sourcePath : string := "resources/image.jpg".
Definition outputDir : string := "outputs".

(** [copyAndRenameImage]: the calls issued and the error returned.  The
    outer [None] is the panic of [promptID[:8]]; the deferred [Close]
    calls run when the function returns, last deferred first. *)
Definition copyAndRenameImage (promptID : string) (env : os_results)
  : option (list os_call * option string) :=
  match slice_to promptID 8 with
  | None => None
  | Some short =>
      let newFileName := "output_" +:+ short +:+ ".jpg" in
      let destPath := filepath_Join outputDir newFileName in
      Some
        match r_MkdirAll env with
        | Some e => ([MkdirAll outputDir ModePerm],
                     Some ("创建输出目录失败: " +:+ e))
        | None =>
          match r_Open env with
          | Some e => ([MkdirAll outputDir ModePerm; Open sourcePath],
                       Some ("打开源文件失败: " +:+ e))
          | None =>
            match r_Create env with
            | Some e => ([MkdirAll outputDir ModePerm; Open sourcePath;
                          Create destPath; Close sourcePath],
                         Some ("创建目标文件失败: " +:+ e))
            | None =>
              ([MkdirAll outputDir ModePerm; Open sourcePath; Create destPath;
                Copy destPath sourcePath; Close destPath; Close sourcePath],
               match r_Copy env with
               | Some e => Some ("复制文件内容失败: " +:+ e)
               | None => None
               end)
            end
          end
        end
  end.

(** ** The running server *)

(** Where a [processQueue] goroutine stands. *)
Inductive pc : Type :=
| PQ_lock                        (* line 148, before [m.mu.Lock()] *)
| PQ_check                       (* line 163, before the test of [m.runningTask] *)
| PQ_arg                         (* line 164, before [m.runningTask] is read as argument *)
| PQ_process (prompt : option nat)   (* inside [processPrompt(prompt)], asleep *)
| PQ_clear                       (* line 165, [processPrompt] has returned *)
| PQ_done.                       (* returned *)

Record world : Type := mkWorld {
  store : list PromptInfo;       (* the allocated [PromptInfo] objects *)
  mock : ComfyUIMock;
  goroutines : list pc;          (* the [processQueue] goroutines started so far *)
  stdout : list string;          (* what [fmt.Printf] has written (line 186);
                                    the request log of gin is not modelled *)
  syscalls : list os_call;       (* the operating system calls made so far *)
  panicked : bool                (* a goroutine has panicked: the process is dead *)
}.

Definition init : world := mkWorld [] NewComfyUIMock [] [] [] false.

Definition with_goroutine (i : nat) (c : pc) (w : world) : world :=
  mkWorld (store w) (mock w) (<[i:=c]> (goroutines w)) (stdout w) (syscalls w)
    (panicked w).

Definition with_panic (w : world) : world :=
  mkWorld (store w) (mock w) (goroutines w) (stdout w) (syscalls w) true.

(** ** The handlers *)

(** What [c.ShouldBindJSON(&request)] yields. *)
Inductive bind_result : Type :=
| BindErr (msg : string)
| BindOk (client_id : string) (prompt : json).

(** [handlePrompt]; [u] is the value [uuid.New()] draws when it is called.
    The response and the world it leaves, with the [processQueue] goroutine
    of line 76 started. *)
Definition handlePrompt (w : world) (request : bind_result) (u : UUID)
  : response * world :=
  match request with
  | BindErr msg => (JSON StatusBadRequest (JObject [("error", JString msg)]), w)
  | BindOk client_id prompt =>
      let promptID := generatePromptID u in
      let m := mock w in
      let queueID' := int_wrap (queueID m + 1) in
      let promptInfo := mkPromptInfo prompt client_id "pending" None queueID' promptID in
      let a := length (store w) in
      (JSON StatusOK (JObject [("prompt_id", JString promptID)]),
       mkWorld (store w ++ [promptInfo])
         (mkMock (<[promptID:=a]> (prompts m)) queueID' (runningTask m))
         (goroutines w ++ [PQ_lock]) (stdout w) (syscalls w) (panicked w))
  end.

Definition history_record (promptID : string) (p : PromptInfo) : json :=
  JObject [(promptID, JObject [
    ("prompt", Prompt p);
    ("outputs", default JNull (Output p));
    ("status", JObject [
      ("status_str", JString "success");
      ("completed", JBool true);
      ("messages", JArray [
        JArray [JString "execution_start";
                JObject [("prompt_id", JString promptID)]];
        JArray [JString "execution_cached";
                JObject [("nodes", JArray [JString "4"; JString "7";
                                           JString "5"; JString "6"]);
                         ("prompt_id", JString promptID)]]])])])].

(** [handleHistory] when nothing is written between its reads: the lookup
    of lines 84-86 and the reads of lines 93 and 100-101 all see the world
    [w].  The source releases the lock at line 86 and reads the fields of the
    job without it; [handleHistory_unlocked] below gives each read its own
    world, and this function is its case [w], [w], [w]
    (lemma [handleHistory_one_world]). *)
Definition handleHistory (w : world) (promptID : string) : response * world :=
  match prompts (mock w) !! promptID with
  | None => (JSON StatusNotFound (JObject [("error", JString "Prompt not found")]), w)
  | Some a =>
      let prompt := deref (store w) a in
      if decide (Status prompt ≠ "completed")
      then (JSON StatusOK (JObject []), w)
      else (JSON StatusOK (history_record promptID prompt), w)
  end.

(** One element of [queue_running] or [queue_pending]. *)
Definition queue_entry (p : PromptInfo) : json :=
  JArray [JInt (ID p); JString (PromptID p); Prompt p; JArray [JString "9"]].

(** Lines 121-128. *)
Definition queueRunning (w : world) : list json :=
  match runningTask (mock w) with
  | Some a => [queue_entry (deref (store w) a)]
  | None => []
  end.

(** Lines 130-139; [order] is the order in which [range m.prompts] visits
    the map, which Go leaves unspecified and varies from one loop to the
    next. *)
Fixpoint queuePending (st : list PromptInfo) (order : list (string * nat))
  : list json :=
  match order with
  | [] => []
  | (_, a) :: rest =>
      let prompt := deref st a in
      if decide (Status prompt = "pending")
      then queue_entry prompt :: queuePending st rest
      else queuePending st rest
  end.

(** [handleQueue]: the response and the world it leaves. *)
Definition handleQueue (w : world) (order : list (string * nat)) : response * world :=
  (JSON StatusOK (JObject [
     ("queue_running", JArray (queueRunning w));
     ("queue_pending", JArray (queuePending (store w) order))]), w).

(** An order in which [range] can visit the job table. *)
Definition range_order (w : world) (order : list (string * nat)) : Prop :=
  order ≡ₚ map_to_list (prompts (mock w)).

(** ** The processing loop *)

(** Lines 154-160: the job the loop stops at, the first pending one in
    [range] order. *)
Fixpoint first_pending (st : list PromptInfo) (order : list (string * nat))
  : option nat :=
  match order with
  | [] => None
  | (_, a) :: rest =>
      if decide (Status (deref st a) = "pending") then Some a
      else first_pending st rest
  end.

(** Lines 148-161 of [processQueue], run by goroutine [i]. *)
Definition processQueue_lock (w : world) (i : nat) (order : list (string * nat))
  : world :=
  let m := mock w in
  match runningTask m with
  | Some _ => with_goroutine i PQ_done w
  | None =>
      match first_pending (store w) order with
      | Some a =>
          mkWorld (alter (set_Status "processing") a (store w))
            (mkMock (prompts m) (queueID m) (Some a))
            (<[i:=PQ_check]> (goroutines w)) (stdout w) (syscalls w) (panicked w)
      | None => with_goroutine i PQ_check w
      end
  end.

(** Line 163: the test [m.runningTask != nil], outside the lock. *)
Definition processQueue_check (w : world) (i : nat) : world :=
  match runningTask (mock w) with
  | Some _ => with_goroutine i PQ_arg w
  | None => with_goroutine i PQ_done w
  end.

(** Line 164: [m.runningTask] read again as the argument of
    [processPrompt], outside the lock. *)
Definition processQueue_arg (w : world) (i : nat) : world :=
  with_goroutine i (PQ_process (runningTask (mock w))) w.

Definition newline : string := String "010"%char EmptyString.

(** [processPrompt], lines 177-188, once the sleep of 10 to 20 seconds is
    over; [None] is a panic (a nil [prompt], or [promptID[:8]] out of
    range). *)
Definition processPrompt (w : world) (prompt : option nat) (env : os_results)
  : option world :=
  a ← prompt;
  let p := deref (store w) a in
  out ← generateMockOutput (PromptID p);
  '(calls, err) ← copyAndRenameImage (PromptID p) env;
  Some (mkWorld
    (<[a:=set_Output (Some out) (set_Status "completed" p)]> (store w))
    (mock w) (goroutines w)
    (stdout w ++ match err with
                 | Some e => ["复制和重命名图片时出错: " +:+ e +:+ newline]
                 | None => []
                 end)
    (syscalls w ++ calls) (panicked w)).

(** Lines 165-168: the marker is cleared and the loop starts again. *)
Definition processQueue_clear (w : world) (i : nat) : world :=
  let m := mock w in
  mkWorld (store w) (mkMock (prompts m) (queueID m) None)
    (<[i:=PQ_done]> (goroutines w) ++ [PQ_lock]) (stdout w) (syscalls w)
    (panicked w).

(** ** Executions *)

(** What can happen next: a request to [POST /prompt], or one of the
    goroutines moving on.  The queries [handleHistory] and [handleQueue]
    leave the world as it is and can be asked in any world. *)
Inductive event : Type :=
| EvPrompt (request : bind_result) (u : UUID)
| EvLock (i : nat) (order : list (string * nat))
| EvCheck (i : nat)
| EvArg (i : nat)
| EvProcess (i : nat) (env : os_results)
| EvClear (i : nat).

#[global] Instance range_order_dec w order : Decision (range_order w order).
Proof. unfold range_order. apply _. Defined.

(** One step.  [None]: the event cannot happen in [w].  Modelled from the
    spec: [uuid.New()] never draws an id that is already in the table
    ("job_id is unique across the lifetime of the process"). *)
Definition exec (w : world) (e : event) : option world :=
  if panicked w then None else
  match e with
  | EvPrompt (BindErr msg) u => Some (handlePrompt w (BindErr msg) u).2
  | EvPrompt (BindOk c pr) u =>
      if decide (prompts (mock w) !! generatePromptID u = None)
      then Some (handlePrompt w (BindOk c pr) u).2 else None
  | EvLock i order =>
      match goroutines w !! i with
      | Some PQ_lock =>
          if decide (range_order w order) then Some (processQueue_lock w i order)
          else None
      | _ => None
      end
  | EvCheck i =>
      match goroutines w !! i with
      | Some PQ_check => Some (processQueue_check w i)
      | _ => None
      end
  | EvArg i =>
      match goroutines w !! i with
      | Some PQ_arg => Some (processQueue_arg w i)
      | _ => None
      end
  | EvProcess i env =>
      match goroutines w !! i with
      | Some (PQ_process prompt) =>
          match processPrompt w prompt env with
          | Some w' => Some (with_goroutine i PQ_clear w')
          | None => Some (with_panic w)
          end
      | _ => None
      end
  | EvClear i =>
      match goroutines w !! i with
      | Some PQ_clear => Some (processQueue_clear w i)
      | _ => None
      end
  end.

Fixpoint run (w : world) (tr : list event) : option world :=
  match tr with
  | [] => Some w
  | e :: tr' => exec w e ≫= λ w', run w' tr'
  end.

(** The steps as a relation: one rule for each way [exec] succeeds. *)
Inductive step (w : world) : event → world → Prop :=
| step_bad_request msg u :
    step w (EvPrompt (BindErr msg) u) w
| step_submit c pr u :
    prompts (mock w) !! generatePromptID u = None →
    step w (EvPrompt (BindOk c pr) u) (handlePrompt w (BindOk c pr) u).2
| step_lock i order :
    goroutines w !! i = Some PQ_lock → range_order w order →
    step w (EvLock i order) (processQueue_lock w i order)
| step_check i :
    goroutines w !! i = Some PQ_check →
    step w (EvCheck i) (processQueue_check w i)
| step_arg i :
    goroutines w !! i = Some PQ_arg →
    step w (EvArg i) (processQueue_arg w i)
| step_process i prompt env w1 :
    goroutines w !! i = Some (PQ_process prompt) →
    processPrompt w prompt env = Some w1 →
    step w (EvProcess i env) (with_goroutine i PQ_clear w1)
| step_panic i prompt env :
    goroutines w !! i = Some (PQ_process prompt) →
    processPrompt w prompt env = None →
    step w (EvProcess i env) (with_panic w)
| step_clear i :
    goroutines w !! i = Some PQ_clear →
    step w (EvClear i) (processQueue_clear w i).

(** ** Vocabulary of the properties *)

(** A job is pending or processing without a result, or completed with the
    result of [generateMockOutput]. *)
Definition job_state (p : PromptInfo) : Prop :=
  (Status p = "pending" ∧ Output p = None) ∨
  (Status p = "processing" ∧ Output p = None) ∨
  (Status p = "completed" ∧ is_Some (Output p) ∧
   Output p = generateMockOutput (PromptID p)).

(** The pointer [a] is to a job that has been picked. *)
Definition picked (st : list PromptInfo) (a : nat) : Prop :=
  ∃ p, st !! a = Some p ∧ Status p ≠ "pending".

Record consistent (w : world) : Prop := mkConsistent {
  c_key : ∀ a p, store w !! a = Some p → prompts (mock w) !! PromptID p = Some a;
  c_uuid : ∀ a p, store w !! a = Some p → ∃ u, PromptID p = generatePromptID u;
  c_ID : ∀ a p, store w !! a = Some p → ID p = int_wrap (Z.of_nat a + 1);
  c_state : ∀ a p, store w !! a = Some p → job_state p;
  c_table : ∀ k a, prompts (mock w) !! k = Some a →
            ∃ p, store w !! a = Some p ∧ PromptID p = k;
  c_counter : queueID (mock w) = int_wrap (Z.of_nat (length (store w)));
  c_running : ∀ a, runningTask (mock w) = Some a → picked (store w) a;
  c_workers : ∀ i a, goroutines w !! i = Some (PQ_process (Some a)) →
              picked (store w) a
}.

(** The store after a job changed its status or result in place. *)
Definition advances (st st' : list PromptInfo) : Prop :=
  ∀ b, match st !! b, st' !! b with
       | Some p, Some q =>
           PromptID q = PromptID p ∧ ID q = ID p ∧ Prompt q = Prompt p ∧
           ClientID q = ClientID p ∧ job_state q ∧
           (Status p ≠ "pending" → Status q ≠ "pending")
       | None, None => True
       | _, _ => False
       end.

(** The fields of a job that no step writes. *)
Definition same_job (p q : PromptInfo) : Prop :=
  Prompt q = Prompt p ∧ ClientID q = ClientID p ∧ ID q = ID p ∧
  PromptID q = PromptID p.

(** The job id of an element of [queue_running] or [queue_pending]. *)
Definition entry_job_id (e : json) : option string :=
  match e with
  | JArray [_; JString k; _; _] => Some k
  | _ => None
  end.

(** The job with id [k] appears in the list [l] of a snapshot. *)
Definition lists (k : string) (l : list json) : Prop :=
  ∃ e, e ∈ l ∧ entry_job_id e = Some k.

(** Two worlds in which every query has the same answer. *)
Definition same_answers (w1 w2 : world) : Prop :=
  ∀ k order,
    (handleHistory w1 k).1 = (handleHistory w2 k).1 ∧
    (handleQueue w1 order).1 = (handleQueue w2 order).1.

(** ** Sample executions *)

(** The order in which the table is visited when nothing else is said. *)
Definition table_order (w : world) : list (string * nat) :=
  map_to_list (prompts (mock w)).

Definition sample_uuid (b : Byte.byte) : UUID := vcons b (vreplicate 15 Byte.x00).
Definition no_errors : os_results := mkResults None None None None.

Definition missing_source : os_results :=
  mkResults None (Some "open resources/image.jpg: no such file or directory")
    None None.

(** Four submissions, and the schedule where a goroutine that found
    nothing to do passes the unlocked test of line 163 after another
    goroutine has picked a job. *)
Module Race.
Definition uX : UUID := sample_uuid Byte.x01.
Definition uY : UUID := sample_uuid Byte.x02.
Definition uZ : UUID := sample_uuid Byte.x03.
Definition uW : UUID := sample_uuid Byte.x04.
Definition kX : string := generatePromptID uX.
Definition kY : string := generatePromptID uY.
Definition kZ : string := generatePromptID uZ.
Definition kW : string := generatePromptID uW.
Definition submit (u : UUID) : event := EvPrompt (BindOk "c1" JNull) u.

Definition trace : list event := [
  submit uX;                                   (* job X; goroutine 0 *)
  EvLock 0 [(kX, 0%nat)];                      (* 0 picks X *)
  EvCheck 0; EvArg 0;
  EvProcess 0 no_errors;                       (* X completed *)
  EvClear 0;                                   (* marker cleared; goroutine 1 *)
  EvLock 1 [(kX, 0%nat)];                      (* 1 finds nothing pending, unlocks *)
  submit uY;                                   (* job Y; goroutine 2 *)
  EvLock 2 [(kX, 0%nat); (kY, 1%nat)];         (* 2 picks Y *)
  EvCheck 1; EvArg 1;                          (* 1 reads the marker that 2 set *)
  EvCheck 2; EvArg 2;                          (* 1 and 2 both sleep on Y *)
  submit uZ;                                   (* job Z; goroutine 3 *)
  EvLock 3 [(kX, 0%nat); (kY, 1%nat); (kZ, 2%nat)];   (* marker set: 3 returns *)
  submit uW;                                   (* job W; goroutine 4 *)
  EvLock 4 [(kX, 0%nat); (kY, 1%nat); (kZ, 2%nat); (kW, 3%nat)];  (* 4 returns *)
  EvProcess 2 no_errors; EvClear 2;            (* 2 completes Y; goroutine 5 *)
  EvLock 5 [(kZ, 2%nat); (kW, 3%nat); (kX, 0%nat); (kY, 1%nat)];  (* 5 picks Z *)
  EvCheck 5; EvArg 5;                          (* 5 sleeps on Z *)
  EvProcess 1 no_errors; EvClear 1;            (* 1 completes Y again and clears
                                                  the marker of Z; goroutine 6 *)
  EvLock 6 [(kW, 3%nat); (kZ, 2%nat); (kX, 0%nat); (kY, 1%nat)]   (* 6 picks W *)
].
Definition final : world := Eval vm_compute in default init (run init trace).
End Race.

(** One job, up to the return of [processPrompt]: the job is completed
    and line 165 has not run yet. *)
Module Window.
Definition trace : list event := [
  Race.submit Race.uX;
  EvLock 0 [(Race.kX, 0%nat)];
  EvCheck 0; EvArg 0;
  EvProcess 0 no_errors
].
Definition final : world := Eval vm_compute in default init (run init trace).
End Window.

(** One job, picked and asleep in [processPrompt]. *)
Module Picked.
Definition trace : list event := [
  Race.submit Race.uX;
  EvLock 0 [(Race.kX, 0%nat)];
  EvCheck 0; EvArg 0
].
Definition final : world := Eval vm_compute in default init (run init trace).
End Picked.

(** Two submissions, both still pending. *)
Module Pair.
Definition trace : list event := [Race.submit Race.uX; Race.submit Race.uY].
Definition final : world := Eval vm_compute in default init (run init trace).
Definition order1 : list (string * nat) := [(Race.kX, 0%nat); (Race.kY, 1%nat)].
Definition order2 : list (string * nat) := [(Race.kY, 1%nat); (Race.kX, 0%nat)].
End Pair.

(** ** Vocabulary of the further properties *)

(** The events other than a request that [ShouldBindJSON] rejects. *)
Definition accepted (e : event) : bool :=
  match e with
  | EvPrompt (BindErr _) _ => false
  | _ => true
  end.

Definition is_submit (e : event) : bool :=
  match e with
  | EvPrompt (BindOk _ _) _ => true
  | _ => false
  end.

Definition is_clear (e : event) : bool :=
  match e with
  | EvClear _ => true
  | _ => false
  end.

(** How many submissions an execution accepts, and how many times it runs
    lines 165-168. *)
Definition submissions (tr : list event) : nat := length (List.filter is_submit tr).
Definition clears (tr : list event) : nat := length (List.filter is_clear tr).

(** The order of the three values of [Status]. *)
Definition status_rank (s : string) : nat :=
  if decide (s = "pending") then 0%nat
  else if decide (s = "processing") then 1%nat else 2%nat.

(** The goroutine has released the lock at line 161 and has not yet read
    [m.runningTask] at line 164. *)
Definition at_tail (c : pc) : bool :=
  match c with
  | PQ_check | PQ_arg => true
  | _ => false
  end.

(** No goroutine takes the lock of line 148 while another one is between
    lines 161 and 164. *)
Definition lock_clear (w : world) (e : event) : bool :=
  match e with
  | EvLock _ _ => forallb (λ c, negb (at_tail c)) (goroutines w)
  | _ => true
  end.

Fixpoint tails_uninterrupted (w : world) (tr : list event) : bool :=
  match tr with
  | [] => true
  | e :: tr' =>
      lock_clear w e &&
      match exec w e with
      | Some w' => tails_uninterrupted w' tr'
      | None => true
      end
  end.

(** The goroutine is before line 148 or has returned. *)
Definition idle (c : pc) : Prop := c = PQ_lock ∨ c = PQ_done.

(** No job is processing, except the one [o] points to. *)
Definition only_processing (st : list PromptInfo) (o : option nat) : Prop :=
  ∀ (b : nat) p, st !! b = Some p → Status p = "processing" → o = Some b.

(** What holds of the store [st] and the marker [m] while a goroutine is at
    [c]: the job it works on is the job of the marker. *)
Definition working (st : list PromptInfo) (m : option nat) (c : pc) : Prop :=
  match c with
  | PQ_lock | PQ_done => True
  | PQ_check => only_processing st m
  | PQ_arg => is_Some m ∧ only_processing st m
  | PQ_process prompt => prompt = m ∧ is_Some prompt ∧ only_processing st m
  | PQ_clear => is_Some m ∧ only_processing st None
  end.

(** One goroutine at most is past line 148; it works on the job of the
    marker, and no other job is processing. *)
Record one_worker (st : list PromptInfo) (m : option nat) (gs : list pc)
  : Prop := mkOneWorker {
  sw_one : ∀ (i j : nat) ci cj,
    gs !! i = Some ci → gs !! j = Some cj → ¬ idle ci → ¬ idle cj → i = j;
  sw_quiet : (∀ (i : nat) c, gs !! i = Some c → idle c) → m = None;
  sw_active : ∀ (i : nat) c, gs !! i = Some c → working st m c;
  sw_marker : only_processing st m
}.

Definition single_worker (w : world) : Prop :=
  one_worker (store w) (runningTask (mock w)) (goroutines w).

(** Every call of the operating system succeeds. *)
Definition os_ok (env : os_results) : bool :=
  match env with
  | mkResults None None None None => true
  | _ => false
  end.

Definition copies_ok (e : event) : bool :=
  match e with
  | EvProcess _ env => os_ok env
  | _ => true
  end.

(** The line [processPrompt] prints for the error [e]. *)
Definition log_line (e : string) : string :=
  "复制和重命名图片时出错: " +:+ e +:+ newline.

(** The schedule where a goroutine passes the test of line 163, the marker
    is cleared, and the goroutine then reads nil at line 164. *)
Module NilArg.
Definition prefix : list event := [
  Race.submit Race.uX;
  EvLock 0 [(Race.kX, 0%nat)];
  EvCheck 0; EvArg 0;
  EvProcess 0 no_errors;
  EvClear 0;                                        (* goroutine 1 *)
  EvLock 1 [(Race.kX, 0%nat)];                      (* 1 finds nothing pending *)
  Race.submit Race.uY;                              (* goroutine 2 *)
  EvLock 2 [(Race.kX, 0%nat); (Race.kY, 1%nat)];    (* 2 picks Y *)
  EvCheck 2; EvArg 2;
  EvProcess 2 no_errors;                            (* Y completed *)
  EvCheck 1;                                        (* 1 sees the marker of 2 *)
  EvClear 2;                                        (* 2 clears it *)
  EvArg 1                                           (* 1 reads nil *)
].
Definition before : world := Eval vm_compute in default init (run init prefix).
Definition trace : list event := prefix ++ [EvProcess 1 no_errors].
Definition final : world := Eval vm_compute in default init (run init trace).
End NilArg.

(** Two jobs processed one after the other. *)
Module Serial.
Definition trace : list event := [
  Race.submit Race.uX;
  Race.submit Race.uY;
  EvLock 0 Pair.order2;                             (* 0 picks Y *)
  EvCheck 0; EvArg 0;
  EvLock 1 Pair.order1;                             (* marker set: 1 returns *)
  EvProcess 0 missing_source;
  EvClear 0;                                        (* goroutine 2 *)
  EvLock 2 Pair.order2;                             (* 2 picks X *)
  EvCheck 2; EvArg 2
].
Definition final : world := Eval vm_compute in default init (run init trace).
End Serial.

(** ** [handleHistory] and [processPrompt], read by read *)

(** [handleHistory] as the source runs it.  The lookup of lines 84-86 is
    under the lock and sees [w_lookup]; the lock is then released, and
    [prompt.Status] is read at line 93 in [w_status], [prompt.Prompt] and
    [prompt.Output] at lines 100-101 in [w_fields].  The handler writes
    nothing. *)
Definition handleHistory_unlocked (w_lookup w_status w_fields : world)
    (promptID : string) : response :=
  match prompts (mock w_lookup) !! promptID with
  | None => JSON StatusNotFound (JObject [("error", JString "Prompt not found")])
  | Some a =>
      if decide (Status (deref (store w_status) a) ≠ "completed")
      then JSON StatusOK (JObject [])
      else JSON StatusOK (history_record promptID (deref (store w_fields) a))
  end.

(** Line 180 of [processPrompt], the first write of its critical section;
    [None] is the panic on a nil [prompt]. *)
Definition processPrompt_line180 (w : world) (prompt : option nat)
  : option world :=
  a ← prompt;
  Some (mkWorld
    (<[a:=set_Status "completed" (deref (store w) a)]> (store w))
    (mock w) (goroutines w) (stdout w) (syscalls w) (panicked w)).

(** Lines 181-187 of [processPrompt], in the world line 180 has left. *)
Definition processPrompt_line181 (w : world) (prompt : option nat)
    (env : os_results) : option world :=
  a ← prompt;
  let p := deref (store w) a in
  out ← generateMockOutput (PromptID p);
  '(calls, err) ← copyAndRenameImage (PromptID p) env;
  Some (mkWorld
    (<[a:=set_Output (Some out) p]> (store w))
    (mock w) (goroutines w)
    (stdout w ++ match err with
                 | Some e => ["复制和重命名图片时出错: " +:+ e +:+ newline]
                 | None => []
                 end)
    (syscalls w ++ calls) (panicked w)).

(** No byte of [s] is the separator. *)
Fixpoint separator_free (s : string) : bool :=
  match s with
  | EmptyString => true
  | String c rest => negb (Ascii.eqb c "/"%char) && separator_free rest
  end.

(** One job with the payload {"a": 1}, picked; goroutine 0 is asleep in
    [processPrompt].  [line180] is the world inside its critical section,
    after line 180 and before line 181. *)
Module Unlocked.
Definition payload : json := JObject [("a", JInt 1)].
Definition trace : list event := [
  EvPrompt (BindOk "c1" payload) Race.uX;
  EvLock 0 [(Race.kX, 0%nat)];
  EvCheck 0; EvArg 0
].
Definition asleep : world := Eval vm_compute in default init (run init trace).
Definition line180 : world :=
  Eval vm_compute in default init (processPrompt_line180 asleep (Some 0%nat)).
End Unlocked.

(** The steps that follow [Window.trace]: the marker is cleared and the
    goroutine started at line 168 finds nothing to do. *)
Module After.
Definition steps : list event := [
  EvClear 0;
  EvLock 1 [(Race.kX, 0%nat)];
  EvCheck 1
].
Definition final : world := Eval vm_compute in default init (run Window.final steps).
End After.

(** * Properties *)

(** ** Strings, ids and the counter *)

Lemma length_append (s1 s2 : string) :
  String.length (s1 +:+ s2) = (String.length s1 + String.length s2)%nat.
Proof.
  induction s1 as [|c s1 IH]; [reflexivity|].
  change (String c s1 +:+ s2) with (String c (s1 +:+ s2)).
  simpl. by rewrite IH.
Qed.

Lemma length_hex_Encode (src : list Byte.byte) :
  String.length (hex_Encode src) = (2 * length src)%nat.
Proof. induction src as [|b src IH]; simpl; [done|]. rewrite IH. lia. Qed.

Lemma length_uuid_String (u : UUID) : String.length (uuid_String u) = 36%nat.
Proof.
  unfold uuid_String. cbv zeta.
  rewrite !length_append, !length_hex_Encode, !length_take, !length_drop,
    length_vec_to_list.
  reflexivity.
Qed.

Lemma slice_to_Some (s : string) (n : nat) :
  (n ≤ String.length s)%nat → slice_to s n = Some (String.substring 0 n s).
Proof. intros Hn. unfold slice_to. by rewrite decide_True. Qed.

Lemma slice_to_uuid (u : UUID) :
  slice_to (generatePromptID u) 8 =
    Some (String.substring 0 8 (generatePromptID u)).
Proof.
  apply slice_to_Some. unfold generatePromptID. rewrite length_uuid_String. lia.
Qed.

Lemma int_wrap_succ (z : Z) : int_wrap (int_wrap z + 1) = int_wrap (z + 1).
Proof.
  unfold int_wrap. f_equal.
  replace ((z + 2 ^ 63) mod 2 ^ 64 - 2 ^ 63 + 1 + 2 ^ 63)
    with ((z + 2 ^ 63) mod 2 ^ 64 + 1) by lia.
  rewrite Z.add_mod_idemp_l by lia. f_equal. lia.
Qed.

Lemma int_wrap_small (z : Z) : - 2 ^ 63 ≤ z < 2 ^ 63 → int_wrap z = z.
Proof. intros Hz. unfold int_wrap. rewrite Z.mod_small; lia. Qed.

(** ** Pointers *)

Lemma deref_lookup (st : list PromptInfo) (a : nat) p : st !! a = Some p → deref st a = p.
Proof. unfold deref. by intros ->. Qed.

Lemma first_pending_Some st order a :
  first_pending st order = Some a →
  Status (deref st a) = "pending" ∧ ∃ k, (k, a) ∈ order.
Proof.
  induction order as [|[k b] rest IH]; simpl; [done|].
  case_decide as Hs.
  - intros [= <-]. split; [done|]. exists k. left.
  - intros H. destruct (IH H) as [? [k' ?]]. split; [done|]. exists k'. by right.
Qed.

Lemma run_app w tr1 tr2 : run w (tr1 ++ tr2) = run w tr1 ≫= λ w', run w' tr2.
Proof.
  revert w. induction tr1 as [|e tr1 IH]; intros w; simpl; [done|].
  destruct (exec w e); simpl; [apply IH|done].
Qed.

Lemma exec_step w e w' :
  exec w e = Some w' ↔ panicked w = false ∧ step w e w'.
Proof.
  unfold exec. split.
  - destruct (panicked w); [done|]. intros He. split; [done|].
    destruct e as [[msg|c pr] u|i order|i|i|i env|i].
    + injection He as <-. constructor.
    + case_decide; [|done]. injection He as <-. by constructor.
    + destruct (goroutines w !! i) as [[]|] eqn:Hi; try done.
      case_decide; [|done]. injection He as <-. by constructor.
    + destruct (goroutines w !! i) as [[]|] eqn:Hi; try done.
      injection He as <-. by constructor.
    + destruct (goroutines w !! i) as [[]|] eqn:Hi; try done.
      injection He as <-. by constructor.
    + destruct (goroutines w !! i) as [[| | |prompt| |]|] eqn:Hi; try done.
      destruct (processPrompt w prompt env) as [w1|] eqn:Hp;
        injection He as <-; by econstructor.
    + destruct (goroutines w !! i) as [[]|] eqn:Hi; try done.
      injection He as <-. by constructor.
  - intros [-> Hstep].
    destruct Hstep as [msg u|c pr u Hf|i order Hi Ho|i Hi|i Hi|i prompt env w1 Hi Hp
                      |i prompt env Hi Hp|i Hi];
      rewrite ?Hi, ?Hp; try done; by rewrite decide_True.
Qed.

(** ** What every execution keeps true *)

Lemma consistent_init : consistent init.
Proof. split; simpl; try done. Qed.

Lemma advances_picked st st' a : advances st st' → picked st a → picked st' a.
Proof.
  intros Hadv (p & Hp & Hs). specialize (Hadv a). rewrite Hp in Hadv.
  destruct (st' !! a) as [q|] eqn:Hq; [|done].
  exists q. split; [done|]. naive_solver.
Qed.

Lemma advances_length st st' : advances st st' → length st' = length st.
Proof.
  intros Hadv.
  destruct (Nat.lt_trichotomy (length st') (length st)) as [Hlt|[->|Hlt]]; [|done|].
  - specialize (Hadv (length st')).
    rewrite (lookup_ge_None_2 st') in Hadv by lia.
    destruct (lookup_lt_is_Some_2 st (length st') Hlt) as [p Hp].
    by rewrite Hp in Hadv.
  - specialize (Hadv (length st)).
    rewrite (lookup_ge_None_2 st) in Hadv by lia.
    destruct (lookup_lt_is_Some_2 st' (length st) Hlt) as [p Hp].
    by rewrite Hp in Hadv.
Qed.

Lemma consistent_advances w st' rt gs so sc pn :
  consistent w → advances (store w) st' →
  (∀ a, rt = Some a → picked st' a) →
  (∀ i a, gs !! i = Some (PQ_process (Some a)) → picked st' a) →
  consistent (mkWorld st' (mkMock (prompts (mock w)) (queueID (mock w)) rt)
                gs so sc pn).
Proof.
  intros Hc Hadv Hrt Hgs.
  assert (Hold : ∀ b q, st' !! b = Some q → ∃ p, store w !! b = Some p ∧
            PromptID q = PromptID p ∧ ID q = ID p ∧ job_state q).
  { intros b q Hq. specialize (Hadv b). rewrite Hq in Hadv.
    destruct (store w !! b) as [p|]; [|done]. exists p. naive_solver. }
  split; simpl.
  - intros a q Hq. destruct (Hold a q Hq) as (p & Hp & -> & _). by eapply c_key.
  - intros a q Hq. destruct (Hold a q Hq) as (p & Hp & -> & _). by eapply c_uuid.
  - intros a q Hq. destruct (Hold a q Hq) as (p & Hp & _ & -> & _). by eapply c_ID.
  - intros a q Hq. by destruct (Hold a q Hq) as (p & Hp & _ & _ & ?).
  - intros k a Hk. destruct (c_table w Hc k a Hk) as (p & Hp & <-).
    specialize (Hadv a). rewrite Hp in Hadv.
    destruct (st' !! a) as [q|]; [|done]. exists q. naive_solver.
  - rewrite (advances_length _ _ Hadv). by apply c_counter.
  - done.
  - done.
Qed.

Lemma deref_pending_lookup (st : list PromptInfo) (a : nat) :
  Status (deref st a) = "pending" → st !! a = Some (deref st a).
Proof. unfold deref. by destruct (st !! a). Qed.

Lemma job_state_pending p : job_state p → Status p = "pending" → Output p = None.
Proof. intros [[_ ?]|[[-> _]|[-> _]]] Hs; [done|done|done]. Qed.

Lemma advances_pick w a :
  consistent w → Status (deref (store w) a) = "pending" →
  advances (store w) (alter (set_Status "processing") a (store w)).
Proof.
  intros Hc Hs b. pose proof (deref_pending_lookup _ _ Hs) as Ha.
  destruct (decide (b = a)) as [->|Hne].
  - rewrite list_lookup_alter_eq, Ha. simpl. repeat split; try done.
    right; left. split; [done|]. simpl.
    eapply job_state_pending; [by eapply c_state|done].
  - rewrite list_lookup_alter_ne by done.
    destruct (store w !! b) as [p|] eqn:Hp; [|done].
    repeat split; try done. by eapply c_state.
Qed.

Lemma advances_complete w a p out :
  consistent w → store w !! a = Some p →
  generateMockOutput (PromptID p) = Some out →
  advances (store w)
    (<[a:=set_Output (Some out) (set_Status "completed" p)]> (store w)).
Proof.
  intros Hc Ha Hout b. destruct (decide (b = a)) as [->|Hne].
  - rewrite list_lookup_insert_eq by (by eapply lookup_lt_Some). rewrite Ha.
    simpl. repeat split; try done.
    right; right. simpl. by repeat split.
  - rewrite list_lookup_insert_ne by done.
    destruct (store w !! b) as [q|] eqn:Hq; [|done].
    repeat split; try done. by eapply c_state.
Qed.

Lemma generateMockOutput_uuid u : is_Some (generateMockOutput (generatePromptID u)).
Proof. unfold generateMockOutput. rewrite slice_to_uuid. eauto. Qed.

Lemma copyAndRenameImage_uuid u env :
  is_Some (copyAndRenameImage (generatePromptID u) env).
Proof. unfold copyAndRenameImage. rewrite slice_to_uuid. eauto. Qed.

Lemma goroutines_insert_process (gs : list pc) (i : nat) (c : pc) (j : nat) a :
  (∀ b, c ≠ PQ_process (Some b)) →
  <[i:=c]> gs !! j = Some (PQ_process (Some a)) →
  gs !! j = Some (PQ_process (Some a)).
Proof.
  intros Hc [(-> & -> & _)|[_ ?]]%list_lookup_insert_Some; [|done].
  by destruct (Hc a).
Qed.

Lemma consistent_with_goroutine w i c :
  (∀ b, c = PQ_process (Some b) → picked (store w) b) →
  consistent w → consistent (with_goroutine i c w).
Proof.
  intros Hb Hc. destruct Hc. split; simpl; try done.
  intros j a [(-> & -> & _)|[_ ?]]%list_lookup_insert_Some; eauto.
Qed.

Lemma consistent_handlePrompt w c pr u :
  prompts (mock w) !! generatePromptID u = None →
  consistent w → consistent (handlePrompt w (BindOk c pr) u).2.
Proof.
  intros Hfresh Hc. simpl.
  assert (Hne : ∀ a p, store w !! a = Some p → PromptID p ≠ generatePromptID u).
  { intros a p Hp Heq. pose proof (c_key w Hc a p Hp) as Hk. congruence. }
  split; simpl.
  - intros a p [[Hlt Hp]|[-> <-]]%lookup_snoc_Some.
    + rewrite lookup_insert_ne by (intros Heq; by eapply Hne). by eapply c_key.
    + simpl. by rewrite lookup_insert_eq.
  - intros a p [[Hlt Hp]|[-> <-]]%lookup_snoc_Some; [by eapply c_uuid|].
    simpl. eauto.
  - intros a p [[Hlt Hp]|[-> <-]]%lookup_snoc_Some; [by eapply c_ID|].
    simpl. by rewrite (c_counter w Hc), int_wrap_succ.
  - intros a p [[Hlt Hp]|[-> <-]]%lookup_snoc_Some; [by eapply c_state|].
    by left.
  - intros k a Hk. destruct (decide (k = generatePromptID u)) as [->|Hk'].
    + rewrite lookup_insert_eq in Hk. injection Hk as <-.
      eexists. split; [apply list_lookup_middle; done|done].
    + rewrite lookup_insert_ne in Hk by done.
      destruct (c_table w Hc k a Hk) as (p & Hp & Hid).
      exists p. split; [|done]. apply lookup_app_l_Some. done.
  - rewrite (c_counter w Hc), int_wrap_succ, length_app. simpl. f_equal. lia.
  - intros a Ha. destruct (c_running w Hc a Ha) as (p & Hp & Hs).
    exists p. split; [|done]. by apply lookup_app_l_Some.
  - intros i a [[Hlt Hi]|[_ ?]]%lookup_snoc_Some; [|done].
    destruct (c_workers w Hc i a Hi) as (p & Hp & Hs).
    exists p. split; [|done]. by apply lookup_app_l_Some.
Qed.

Lemma consistent_with_panic w : consistent w → consistent (with_panic w).
Proof. intros []. by split. Qed.

Lemma consistent_processQueue_lock w i order :
  consistent w → consistent (processQueue_lock w i order).
Proof.
  intros Hc. unfold processQueue_lock.
  destruct (runningTask (mock w)) as [r|] eqn:Hr.
  { by apply consistent_with_goroutine. }
  destruct (first_pending (store w) order) as [a|] eqn:Hf.
  2:{ by apply consistent_with_goroutine. }
  apply first_pending_Some in Hf as [Hs _].
  pose proof (advances_pick w a Hc Hs) as Hadv.
  apply consistent_advances; [done|done| |].
  - intros ? [= <-]. eexists. split.
    + rewrite list_lookup_alter_eq, (deref_pending_lookup _ _ Hs). done.
    + done.
  - intros j b Hj%goroutines_insert_process; [|done].
    eapply advances_picked; [done|]. by eapply c_workers.
Qed.

Lemma processPrompt_Some w a p env :
  consistent w → store w !! a = Some p →
  ∃ out calls err,
    generateMockOutput (PromptID p) = Some out ∧
    copyAndRenameImage (PromptID p) env = Some (calls, err) ∧
    processPrompt w (Some a) env =
      Some (mkWorld
        (<[a:=set_Output (Some out) (set_Status "completed" p)]> (store w))
        (mock w) (goroutines w)
        (stdout w ++ match err with
                     | Some e => ["复制和重命名图片时出错: " +:+ e +:+ newline]
                     | None => []
                     end)
        (syscalls w ++ calls) (panicked w)).
Proof.
  intros Hc Ha. destruct (c_uuid w Hc a p Ha) as [u Hu].
  destruct (generateMockOutput_uuid u) as [out Hout].
  destruct (copyAndRenameImage_uuid u env) as [[calls err] Hcopy].
  exists out, calls, err. rewrite Hu. split; [done|]. split; [done|].
  unfold processPrompt. simpl. rewrite (deref_lookup _ _ _ Ha), Hu, Hout.
  simpl. by rewrite Hcopy.
Qed.

Lemma consistent_step w e w' : consistent w → step w e w' → consistent w'.
Proof.
  intros Hc [msg u|c pr u Hf|i order Hi Ho|i Hi|i Hi|i prompt env w1 Hi Hp
            |i prompt env Hi Hp|i Hi].
  - done.
  - by apply consistent_handlePrompt.
  - by apply consistent_processQueue_lock.
  - unfold processQueue_check.
    destruct (runningTask (mock w)); by apply consistent_with_goroutine.
  - apply consistent_with_goroutine; [|done].
    intros b [= Hb]. by apply c_running.
  - destruct prompt as [a|]; [|done].
    destruct (c_workers w Hc i a Hi) as (p & Ha & Hs).
    destruct (processPrompt_Some w a p env Hc Ha)
      as (out & calls & err & Hout & _ & Heq).
    rewrite Heq in Hp. injection Hp as <-.
    pose proof (advances_complete w a p out Hc Ha Hout) as Hadv.
    unfold with_goroutine. simpl. destruct (mock w) as [pm q rt] eqn:Hm.
    change pm with (prompts (mkMock pm q rt)).
    change q with (queueID (mkMock pm q rt)) at 2. rewrite <- Hm.
    apply consistent_advances; [done|done| |].
    + intros b Hb. eapply advances_picked; [done|].
      apply (c_running w Hc). by rewrite Hm.
    + intros j b Hj%goroutines_insert_process; [|done].
      eapply advances_picked; [done|]. by eapply c_workers.
  - by apply consistent_with_panic.
  - unfold processQueue_clear. destruct Hc. split; simpl; try done.
    intros j a [[_ Hj]|[_ ?]]%lookup_snoc_Some; [|done].
    apply goroutines_insert_process in Hj; [|done]. eauto.
Qed.

Lemma consistent_exec w e w' : consistent w → exec w e = Some w' → consistent w'.
Proof. intros Hc [_ Hstep]%exec_step. by eapply consistent_step. Qed.

Lemma consistent_run_from w tr w' : consistent w → run w tr = Some w' → consistent w'.
Proof.
  revert w. induction tr as [|e tr IH]; intros w Hc; simpl.
  - by intros [= <-].
  - destruct (exec w e) as [w1|] eqn:He; [|done]. simpl.
    apply IH. by eapply consistent_exec.
Qed.

Lemma consistent_run tr w : run init tr = Some w → consistent w.
Proof. apply consistent_run_from, consistent_init. Qed.

(** ** Queue snapshots *)

Lemma elem_of_queueRunning w e :
  e ∈ queueRunning w →
  ∃ a, runningTask (mock w) = Some a ∧ e = queue_entry (deref (store w) a).
Proof.
  unfold queueRunning. destruct (runningTask (mock w)) as [a|].
  - intros ->%list_elem_of_singleton. eauto.
  - by intros ?%elem_of_nil.
Qed.

Lemma elem_of_queuePending st order e :
  e ∈ queuePending st order →
  ∃ k a, (k, a) ∈ order ∧ Status (deref st a) = "pending" ∧
         e = queue_entry (deref st a).
Proof.
  induction order as [|[k a] rest IH]; simpl; [by intros ?%elem_of_nil|].
  case_decide as Hs.
  - intros [->|Hin]%elem_of_cons.
    + exists k, a. split; [left|done].
    + destruct (IH Hin) as (k' & a' & ? & ?). exists k', a'. split; [by right|done].
  - intros Hin. destruct (IH Hin) as (k' & a' & ? & ?).
    exists k', a'. split; [by right|done].
Qed.

Lemma queuePending_Permutation st order1 order2 :
  order1 ≡ₚ order2 → queuePending st order1 ≡ₚ queuePending st order2.
Proof.
  induction 1 as [|[k a] l1 l2 _ IH|[k a] [k' a'] l|l1 l2 l3 _ IH1 _ IH2]; simpl.
  - done.
  - case_decide; [by constructor|done].
  - repeat case_decide; try done. apply perm_swap.
  - by etrans.
Qed.

(** C1. The running list of a snapshot never has more than one entry; but
    the schedule [Race.trace] reaches a world in which the jobs Z and W both
    have status processing: goroutine 5 is still asleep in [processPrompt]
    on Z while the marker [m.runningTask] points to W. *)
Theorem two_jobs_processing :
  (∀ w order, ∃ running pending,
      (handleQueue w order).1 =
        JSON 200 (JObject [("queue_running", JArray running);
                           ("queue_pending", JArray pending)]) ∧
      (length running ≤ 1)%nat) ∧
  run init Race.trace = Some Race.final ∧
  panicked Race.final = false ∧
  prompts (mock Race.final) !! Race.kZ = Some 2%nat ∧
  prompts (mock Race.final) !! Race.kW = Some 3%nat ∧
  Status (deref (store Race.final) 2) = "processing" ∧
  Status (deref (store Race.final) 3) = "processing" ∧
  goroutines Race.final !! 5%nat = Some (PQ_process (Some 2%nat)) ∧
  runningTask (mock Race.final) = Some 3%nat.
Proof.
  split.
  - intros w order. eexists _, _. split; [reflexivity|].
    unfold queueRunning. destruct (runningTask (mock w)); simpl; lia.
  - repeat split; vm_compute; reflexivity.
Qed.

(** C2, as stated, fails: between the return of [processPrompt] and line
    165 the completed job is still the entry of the running list. *)
Lemma completed_job_listed_running :
  ∃ w p, run init Window.trace = Some w ∧
         prompts (mock w) !! Race.kX = Some 0%nat ∧
         store w !! 0%nat = Some p ∧
         Status p = "completed" ∧
         range_order w (table_order w) ∧
         (handleQueue w (table_order w)).1 =
           JSON 200 (JObject [("queue_running", JArray [queue_entry p]);
                              ("queue_pending", JArray [])]) ∧
         lists (PromptID p) (queueRunning w).
Proof.
  exists Window.final. eexists. split; [vm_compute; reflexivity|].
  split; [vm_compute; reflexivity|].
  split; [vm_compute; reflexivity|].
  split; [reflexivity|].
  split; [unfold range_order, table_order; reflexivity|].
  split; [vm_compute; reflexivity|].
  eexists. split; [apply list_elem_of_singleton; reflexivity|].
  vm_compute. reflexivity.
Qed.

(** C2, amended. In every reachable world and for every order of the
    table, no job is in both lists of the snapshot, and a completed job is
    never in the pending list; if it is in the running list, it is the job
    the marker [m.runningTask] still points to. *)
Theorem snapshot_lists_disjoint tr w order :
  run init tr = Some w → range_order w order →
  (handleQueue w order).1 =
    JSON 200 (JObject [("queue_running", JArray (queueRunning w));
                       ("queue_pending", JArray (queuePending (store w) order))]) ∧
  (∀ k, lists k (queueRunning w) → ¬ lists k (queuePending (store w) order)) ∧
  (∀ a p, store w !! a = Some p → Status p = "completed" →
     ¬ lists (PromptID p) (queuePending (store w) order) ∧
     (lists (PromptID p) (queueRunning w) → runningTask (mock w) = Some a)).
Proof.
  intros Hrun Horder. pose proof (consistent_run tr w Hrun) as Hc.
  assert (Hpend : ∀ k, lists k (queuePending (store w) order) →
            ∃ a p, store w !! a = Some p ∧ PromptID p = k ∧ Status p = "pending" ∧
                   prompts (mock w) !! k = Some a).
  { intros k (e & (k' & a & Hin & Hs & ->)%elem_of_queuePending & He).
    injection He as <-.
    exists a, (deref (store w) a).
    pose proof (deref_pending_lookup _ _ Hs) as Ha.
    repeat split; try done. by eapply c_key. }
  assert (Hrunning : ∀ k, lists k (queueRunning w) →
            ∃ a p, runningTask (mock w) = Some a ∧ store w !! a = Some p ∧
                   PromptID p = k ∧ Status p ≠ "pending" ∧
                   prompts (mock w) !! k = Some a).
  { intros k (e & (a & Hr & ->)%elem_of_queueRunning & He).
    injection He as <-.
    destruct (c_running w Hc a Hr) as (p & Ha & Hs).
    rewrite (deref_lookup _ _ _ Ha).
    exists a, p. repeat split; try done. by eapply c_key. }
  split; [reflexivity|]. split.
  - intros k (a & p & _ & Ha & _ & Hs & Hk)%Hrunning
      (a' & p' & Ha' & _ & Hs' & Hk')%Hpend.
    congruence.
  - intros a p Ha Hs. split.
    + intros (a' & p' & Ha' & Hid & Hs' & Hk')%Hpend.
      pose proof (c_key w Hc a p Ha). simplify_eq. congruence.
    + intros (a' & p' & Hr & Ha' & Hid & Hs' & Hk')%Hrunning.
      pose proof (c_key w Hc a p Ha). congruence.
Qed.

(** An instance: the world of [Window.trace], where the completed job X is
    still the marker. *)
Lemma snapshot_lists_disjoint_witness :
  run init Window.trace = Some Window.final ∧
  range_order Window.final (table_order Window.final) ∧
  (handleQueue Window.final (table_order Window.final)).1 =
    JSON 200 (JObject [
      ("queue_running", JArray (queueRunning Window.final));
      ("queue_pending",
       JArray (queuePending (store Window.final) (table_order Window.final)))]) ∧
  (∀ k, lists k (queueRunning Window.final) →
        ¬ lists k (queuePending (store Window.final) (table_order Window.final))) ∧
  (∀ a p, store Window.final !! a = Some p → Status p = "completed" →
     ¬ lists (PromptID p)
         (queuePending (store Window.final) (table_order Window.final)) ∧
     (lists (PromptID p) (queueRunning Window.final) →
      runningTask (mock Window.final) = Some a)).
Proof.
  split; [vm_compute; reflexivity|].
  split; [unfold range_order, table_order; reflexivity|].
  apply (snapshot_lists_disjoint Window.trace Window.final).
  - vm_compute; reflexivity.
  - unfold range_order, table_order; reflexivity.
Defined.

(** ** What a job keeps for life *)

Lemma processPrompt_inv w prompt env w1 :
  processPrompt w prompt env = Some w1 →
  ∃ a out calls err,
    prompt = Some a ∧
    generateMockOutput (PromptID (deref (store w) a)) = Some out ∧
    copyAndRenameImage (PromptID (deref (store w) a)) env = Some (calls, err) ∧
    w1 = mkWorld
      (<[a:=set_Output (Some out) (set_Status "completed" (deref (store w) a))]>
         (store w))
      (mock w) (goroutines w)
      (stdout w ++ match err with
                   | Some e => ["复制和重命名图片时出错: " +:+ e +:+ newline]
                   | None => []
                   end)
      (syscalls w ++ calls) (panicked w).
Proof.
  unfold processPrompt. destruct prompt as [a|]; [|done]. simpl.
  destruct (generateMockOutput _) as [out|] eqn:Hout; [|done]. simpl.
  destruct (copyAndRenameImage _ env) as [[calls err]|] eqn:Hcopy; [|done]. simpl.
  intros [= <-]. by exists a, out, calls, err.
Qed.

Lemma exec_keeps_job w e w' k (a : nat) p :
  exec w e = Some w' →
  prompts (mock w) !! k = Some a → store w !! a = Some p →
  ∃ q, prompts (mock w') !! k = Some a ∧ store w' !! a = Some q ∧ same_job p q.
Proof.
  intros [_ Hstep]%exec_step Hk Ha.
  destruct Hstep as [msg u|c pr u Hf|i order Hi Ho|i Hi|i Hi|i prompt env w1 Hi Hp
                    |i prompt env Hi Hp|i Hi]; try (by exists p).
  - exists p. simpl. rewrite lookup_insert_ne by congruence.
    split; [done|]. split; [by apply lookup_app_l_Some|done].
  - unfold processQueue_lock.
    destruct (runningTask (mock w)); [by exists p|].
    destruct (first_pending (store w) order) as [b|]; [|by exists p].
    simpl. destruct (decide (a = b)) as [<-|Hne].
    + exists (set_Status "processing" p).
      rewrite list_lookup_alter_eq, Ha. done.
    + exists p. by rewrite list_lookup_alter_ne.
  - unfold processQueue_check. destruct (runningTask (mock w)); by exists p.
  - apply processPrompt_inv in Hp as (b & out & calls & err & _ & _ & _ & ->).
    simpl. destruct (decide (a = b)) as [<-|Hne].
    + rewrite (deref_lookup _ _ _ Ha).
      eexists. rewrite list_lookup_insert_eq by (by eapply lookup_lt_Some). done.
    + exists p. by rewrite list_lookup_insert_ne.
Qed.

Lemma run_keeps_job w tr w' k (a : nat) p :
  run w tr = Some w' →
  prompts (mock w) !! k = Some a → store w !! a = Some p →
  ∃ q, prompts (mock w') !! k = Some a ∧ store w' !! a = Some q ∧ same_job p q.
Proof.
  revert w p. induction tr as [|e tr IH]; intros w p; simpl.
  - intros [= <-] ??. by exists p.
  - destruct (exec w e) as [w1|] eqn:He; [|done]. simpl. intros Hrun Hk Ha.
    destruct (exec_keeps_job w e w1 k a p He Hk Ha) as (q & Hk1 & Ha1 & Hpq).
    destruct (IH w1 q Hrun Hk1 Ha1) as (r & Hk2 & Ha2 & Hqr).
    exists r. repeat split; try done; unfold same_job in *; naive_solver congruence.
Qed.

(** A key is in the table only through a submission. *)
Lemma exec_table_origin w e w' k (a : nat) :
  exec w e = Some w' → prompts (mock w') !! k = Some a →
  prompts (mock w) !! k = Some a ∨
  ∃ c pr u, e = EvPrompt (BindOk c pr) u ∧ k = generatePromptID u.
Proof.
  intros [_ Hstep]%exec_step.
  destruct Hstep as [msg u|c pr u Hf|i order Hi Ho|i Hi|i Hi|i prompt env w1 Hi Hp
                    |i prompt env Hi Hp|i Hi]; try (by auto).
  - simpl. destruct (decide (k = generatePromptID u)) as [->|Hne]; [by eauto 6|].
    rewrite lookup_insert_ne by done. auto.
  - unfold processQueue_lock. destruct (runningTask (mock w)); [by auto|].
    destruct (first_pending (store w) order); by auto.
  - unfold processQueue_check. destruct (runningTask (mock w)); by auto.
  - apply processPrompt_inv in Hp as (b & out & calls & err & _ & _ & _ & ->).
    by auto.
Qed.

Lemma run_table_origin w tr w' k (a : nat) :
  run w tr = Some w' → prompts (mock w') !! k = Some a →
  prompts (mock w) !! k = Some a ∨
  ∃ tr1 c pr u tr2,
    tr = tr1 ++ EvPrompt (BindOk c pr) u :: tr2 ∧ k = generatePromptID u.
Proof.
  revert w. induction tr as [|e tr IH]; intros w; simpl.
  - intros [= <-]. auto.
  - destruct (exec w e) as [w1|] eqn:He; [|done]. simpl. intros Hrun Hk.
    destruct (IH w1 Hrun Hk) as [Hk1|(tr1 & c & pr & u & tr2 & -> & ->)].
    + destruct (exec_table_origin w e w1 k a He Hk1) as [?|(c & pr & u & -> & ->)];
        [by left|].
      right. by exists [], c, pr, u, tr.
    + right. by exists (e :: tr1), c, pr, u, tr2.
Qed.

(** ** History *)

(** The answers of [handleHistory] when nothing is written between its
    reads.  A job in the table of a reachable world was stored by a submission
    of the execution; the answer is 200 with the empty object while its status
    is not completed, and once it is completed 200 with the record below,
    whose prompt is the payload of that submission and whose outputs is the
    stored result. *)
Theorem history_of_stored_job tr w k (a : nat) :
  run init tr = Some w → prompts (mock w) !! k = Some a →
  ∃ p tr1 c pr u tr2,
    store w !! a = Some p ∧
    tr = tr1 ++ EvPrompt (BindOk c pr) u :: tr2 ∧ k = generatePromptID u ∧
    Prompt p = pr ∧
    (Status p ≠ "completed" → (handleHistory w k).1 = JSON 200 (JObject [])) ∧
    (Status p = "completed" →
     ∃ out, Output p = Some out ∧
       (handleHistory w k).1 =
         JSON 200 (JObject [(k, JObject [
           ("prompt", pr);
           ("outputs", out);
           ("status", JObject [
             ("status_str", JString "success");
             ("completed", JBool true);
             ("messages", JArray [
               JArray [JString "execution_start";
                       JObject [("prompt_id", JString k)]];
               JArray [JString "execution_cached";
                       JObject [("nodes", JArray [JString "4"; JString "7";
                                                  JString "5"; JString "6"]);
                                ("prompt_id", JString k)]]])])])])).
Proof.
  intros Hrun Hk. pose proof (consistent_run tr w Hrun) as Hc.
  destruct (run_table_origin init tr w k a Hrun Hk)
    as [Hk0|(tr1 & c & pr & u & tr2 & -> & ->)]; [done|].
  rewrite run_app in Hrun.
  destruct (run init tr1) as [w1|] eqn:Hrun1; [|done]. simpl in Hrun.
  destruct (exec w1 (EvPrompt (BindOk c pr) u)) as [w2|] eqn:He; [|done].
  simpl in Hrun. unfold exec in He. destruct (panicked w1); [done|].
  case_decide as Hfresh; [|done]. injection He as Hw2.
  destruct (run_keeps_job w2 tr2 w (generatePromptID u) (length (store w1))
              (mkPromptInfo pr c "pending" None
                 (int_wrap (queueID (mock w1) + 1)) (generatePromptID u)) Hrun)
    as (p & Hk' & Ha & Hpr & _).
  { rewrite <- Hw2. simpl. apply lookup_insert_eq. }
  { rewrite <- Hw2. simpl. by apply list_lookup_middle. }
  assert (a = length (store w1)) as -> by congruence.
  simpl in Hpr.
  exists p, tr1, c, pr, u, tr2. repeat split; try done.
  - intros Hs. unfold handleHistory. rewrite Hk, (deref_lookup _ _ _ Ha).
    by rewrite decide_True.
  - intros Hs. destruct (c_state w Hc _ p Ha) as [[? _]|[[? _]|(_ & [out Hout] & _)]];
      [congruence|congruence|].
    exists out. split; [done|].
    unfold handleHistory. rewrite Hk, (deref_lookup _ _ _ Ha).
    rewrite decide_False by (intros Hn; by apply Hn).
    unfold history_record. by rewrite Hout, Hpr.
Qed.

(** An instance: the completed job X of [Window.trace]. *)
Lemma history_of_stored_job_witness :
  run init Window.trace = Some Window.final ∧
  prompts (mock Window.final) !! Race.kX = Some 0%nat ∧
  ∃ p tr1 c pr u tr2,
    store Window.final !! 0%nat = Some p ∧
    Window.trace = tr1 ++ EvPrompt (BindOk c pr) u :: tr2 ∧
    Race.kX = generatePromptID u ∧
    Prompt p = pr ∧
    (Status p ≠ "completed" →
     (handleHistory Window.final Race.kX).1 = JSON 200 (JObject [])) ∧
    (Status p = "completed" →
     ∃ out, Output p = Some out ∧
       (handleHistory Window.final Race.kX).1 =
         JSON 200 (JObject [(Race.kX, JObject [
           ("prompt", pr);
           ("outputs", out);
           ("status", JObject [
             ("status_str", JString "success");
             ("completed", JBool true);
             ("messages", JArray [
               JArray [JString "execution_start";
                       JObject [("prompt_id", JString Race.kX)]];
               JArray [JString "execution_cached";
                       JObject [("nodes", JArray [JString "4"; JString "7";
                                                  JString "5"; JString "6"]);
                                ("prompt_id", JString Race.kX)]]])])])])).
Proof.
  split; [vm_compute; reflexivity|].
  split; [vm_compute; reflexivity|].
  apply (history_of_stored_job Window.trace Window.final Race.kX 0).
  - vm_compute; reflexivity.
  - vm_compute; reflexivity.
Defined.

Lemma handleHistory_one_world w k :
  handleHistory w k = (handleHistory_unlocked w w w k, w).
Proof.
  unfold handleHistory, handleHistory_unlocked.
  destruct (prompts (mock w) !! k); [|done]. cbv zeta. by case_decide.
Qed.

Lemma processPrompt_lines w prompt env :
  processPrompt w prompt env =
    processPrompt_line180 w prompt ≫= λ w1, processPrompt_line181 w1 prompt env.
Proof.
  destruct prompt as [a|]; [|done].
  unfold processPrompt, processPrompt_line180, processPrompt_line181. simpl.
  destruct (decide (a < length (store w))%nat) as [Hlt|Hge].
  - assert (Hd : deref (<[a:=set_Status "completed" (deref (store w) a)]> (store w)) a
                 = set_Status "completed" (deref (store w) a)).
    { unfold deref at 1. by rewrite list_lookup_insert_eq. }
    rewrite Hd. simpl.
    destruct (generateMockOutput _) as [out|]; [|done]. simpl.
    destruct (copyAndRenameImage _ env) as [[calls err]|]; [|done]. simpl.
    by rewrite list_insert_insert_eq.
  - rewrite !(list_insert_ge (store w)) by lia.
    destruct (generateMockOutput _) as [out|]; [|done]. simpl.
    destruct (copyAndRenameImage _ env) as [[calls err]|]; [|done]. simpl.
    by rewrite !(list_insert_ge (store w)) by lia.
Qed.

(** C3. [handleHistory] releases the lock at line 86 and reads the fields of
    the job without it.  In [Unlocked.trace] the job is picked and goroutine 0
    is in [processPrompt]; a query whose reads of lines 93 and 100-101 fall
    after the write of line 180 and before the write of line 181 finds the
    status completed and the result still nil: it answers 200 with the
    success record, the payload as prompt and null as outputs.  A query
    whose reads all see one world is the function [handleHistory]. *)
Theorem history_read_between_writes :
  run init Unlocked.trace = Some Unlocked.asleep ∧
  goroutines Unlocked.asleep !! 0%nat = Some (PQ_process (Some 0%nat)) ∧
  prompts (mock Unlocked.asleep) !! Race.kX = Some 0%nat ∧
  Status (deref (store Unlocked.asleep) 0) = "processing" ∧
  processPrompt_line180 Unlocked.asleep (Some 0%nat) = Some Unlocked.line180 ∧
  (∀ env, processPrompt_line181 Unlocked.line180 (Some 0%nat) env =
          processPrompt Unlocked.asleep (Some 0%nat) env) ∧
  Status (deref (store Unlocked.line180) 0) = "completed" ∧
  Output (deref (store Unlocked.line180) 0) = None ∧
  handleHistory_unlocked Unlocked.asleep Unlocked.line180 Unlocked.line180
      Race.kX =
    JSON 200 (JObject [(Race.kX, JObject [
      ("prompt", JObject [("a", JInt 1)]);
      ("outputs", JNull);
      ("status", JObject [
        ("status_str", JString "success");
        ("completed", JBool true);
        ("messages", JArray [
          JArray [JString "execution_start";
                  JObject [("prompt_id", JString Race.kX)]];
          JArray [JString "execution_cached";
                  JObject [("nodes", JArray [JString "4"; JString "7";
                                             JString "5"; JString "6"]);
                           ("prompt_id", JString Race.kX)]]])])])]) ∧
  (∀ w k, handleHistory w k = (handleHistory_unlocked w w w k, w)).
Proof.
  split; [vm_compute; reflexivity|].
  split; [vm_compute; reflexivity|].
  split; [vm_compute; reflexivity|].
  split; [vm_compute; reflexivity|].
  assert (H180 : processPrompt_line180 Unlocked.asleep (Some 0%nat) =
                 Some Unlocked.line180) by (vm_compute; reflexivity).
  split; [exact H180|].
  split. { intros env. by rewrite processPrompt_lines, H180. }
  split; [vm_compute; reflexivity|].
  split; [vm_compute; reflexivity|].
  split; [vm_compute; reflexivity|].
  apply handleHistory_one_world.
Qed.

(** C5. [handleHistory] answers 404 exactly when the id is not a key of
    the table; the body is then the "Prompt not found" error, and any other
    answer is a 200. The world is left as it was in both cases. *)
Theorem history_not_found w k :
  (code (handleHistory w k).1 = 404 ↔ prompts (mock w) !! k = None) ∧
  (code (handleHistory w k).1 ≠ 404 → code (handleHistory w k).1 = 200) ∧
  (prompts (mock w) !! k = None →
   (handleHistory w k).1 = JSON 404 (JObject [("error", JString "Prompt not found")])) ∧
  (handleHistory w k).2 = w.
Proof.
  unfold handleHistory. destruct (prompts (mock w) !! k) as [a|]; simpl.
  - case_decide; simpl; repeat split; try done.
  - repeat split; try done.
Qed.

(** ** Results *)

(** C6. In every reachable world a job of the table has a result exactly
    when its status is completed: [handlePrompt] stores the job as pending
    without a result, and the step of [processPrompt] that makes it
    completed is the step that stores its result. *)
Theorem result_iff_completed tr w :
  run init tr = Some w →
  (∀ k (a : nat) p, prompts (mock w) !! k = Some a → store w !! a = Some p →
     (is_Some (Output p) ↔ Status p = "completed")) ∧
  (∀ c pr u w', exec w (EvPrompt (BindOk c pr) u) = Some w' →
     ∃ (a : nat) p, prompts (mock w') !! generatePromptID u = Some a ∧
            store w' !! a = Some p ∧ Status p = "pending" ∧ Output p = None) ∧
  (∀ (i a : nat) env w',
     goroutines w !! i = Some (PQ_process (Some a)) →
     exec w (EvProcess i env) = Some w' →
     ∃ p p', store w !! a = Some p ∧ store w' !! a = Some p' ∧
             Status p' = "completed" ∧ is_Some (Output p') ∧
             panicked w' = false).
Proof.
  intros Hrun. pose proof (consistent_run tr w Hrun) as Hc. split; [|split].
  - intros k a p _ Ha.
    destruct (c_state w Hc a p Ha) as [[Hs Ho]|[[Hs Ho]|(Hs & Ho & _)]];
      rewrite ?Hs, ?Ho; split; try done; by intros []%is_Some_None.
  - intros c pr u w'. unfold exec. destruct (panicked w); [done|].
    case_decide; [|done]. intros [= <-]. simpl.
    eexists _, _. split; [apply lookup_insert_eq|].
    split; [by apply list_lookup_middle|done].
  - intros i a env w' Hi. unfold exec. destruct (panicked w) eqn:Hpan; [done|].
    rewrite Hi. destruct (c_workers w Hc i a Hi) as (p & Ha & _).
    destruct (processPrompt_Some w a p env Hc Ha)
      as (out & calls & err & _ & _ & ->).
    intros [= <-]. exists p. eexists. split; [done|]. simpl.
    rewrite list_lookup_insert_eq by (by eapply lookup_lt_Some).
    split; [done|]. by repeat split.
Qed.

(** An instance: the world of [Picked.trace]. *)
Lemma result_iff_completed_witness :
  run init Picked.trace = Some Picked.final ∧
  (∀ k (a : nat) p, prompts (mock Picked.final) !! k = Some a →
     store Picked.final !! a = Some p →
     (is_Some (Output p) ↔ Status p = "completed")) ∧
  (∀ c pr u w', exec Picked.final (EvPrompt (BindOk c pr) u) = Some w' →
     ∃ (a : nat) p, prompts (mock w') !! generatePromptID u = Some a ∧
            store w' !! a = Some p ∧ Status p = "pending" ∧ Output p = None) ∧
  (∀ (i a : nat) env w',
     goroutines Picked.final !! i = Some (PQ_process (Some a)) →
     exec Picked.final (EvProcess i env) = Some w' →
     ∃ p p', store Picked.final !! a = Some p ∧ store w' !! a = Some p' ∧
             Status p' = "completed" ∧ is_Some (Output p') ∧
             panicked w' = false).
Proof.
  split; [vm_compute; reflexivity|].
  apply (result_iff_completed Picked.trace Picked.final).
  vm_compute; reflexivity.
Defined.

Lemma length_substring_0 (n : nat) (s : string) :
  (n ≤ String.length s)%nat → String.length (String.substring 0 n s) = n.
Proof.
  revert s. induction n as [|n IH]; intros [|c s]; simpl; try done; try lia.
  intros Hn. rewrite IH; lia.
Qed.

(** C7. The result stored in a completed job is the document with the one
    image named after the first eight characters of its id.  Whatever the
    operating system answers, [copyAndRenameImage] on that id first makes
    the directory outputs, creates and writes no other file than
    outputs/output_<those eight characters>.jpg, and when no call fails it
    opens the source asset, creates that file and copies into it. *)
Theorem output_of_completed_job tr w (a : nat) p :
  run init tr = Some w → store w !! a = Some p → Status p = "completed" →
  let short := String.substring 0 8 (PromptID p) in
  let dest := "outputs" +:+ "/" +:+ "output_" +:+ short +:+ ".jpg" in
  String.length short = 8%nat ∧
  Output p = Some (JObject [("9", JObject [("images", JArray [
               JObject [("filename", JString (short +:+ ".png"));
                        ("subfolder", JString "");
                        ("type", JString "output")]])])]) ∧
  ∀ env, ∃ calls err,
    copyAndRenameImage (PromptID p) env = Some (MkdirAll "outputs" 511 :: calls, err) ∧
    (∀ name, Create name ∈ calls → name = dest) ∧
    (∀ dst src, Copy dst src ∈ calls → dst = dest ∧ src = "resources/image.jpg") ∧
    (r_MkdirAll env = None → r_Open env = None → r_Create env = None →
     calls = [Open "resources/image.jpg"; Create dest;
              Copy dest "resources/image.jpg";
              Close dest; Close "resources/image.jpg"] ∧
     err = (λ e, "复制文件内容失败: " +:+ e) <$> r_Copy env).
Proof.
  intros Hrun Ha Hs. pose proof (consistent_run tr w Hrun) as Hc.
  destruct (c_uuid w Hc a p Ha) as [u Hu].
  intros short dest. subst short dest. rewrite Hu. split; [|split].
  - apply length_substring_0. unfold generatePromptID.
    rewrite length_uuid_String. lia.
  - destruct (c_state w Hc a p Ha) as [[? _]|[[? _]|(_ & _ & ->)]];
      [congruence|congruence|].
    rewrite Hu. unfold generateMockOutput. by rewrite slice_to_uuid.
  - intros env. unfold copyAndRenameImage. rewrite slice_to_uuid.
    unfold filepath_Join, outputDir, sourcePath, ModePerm.
    assert (Hin : ∀ (c : os_call) l, c ∈ l → In c l).
    { intros c l. by rewrite list_elem_of_In. }
    destruct env as [[e1|] [e2|] [e3|] r4]; simpl;
      eexists _, _; (split; [reflexivity|]);
      (split; [intros name H%Hin|split; [intros dst src H%Hin|intros H1 H2 H3]]);
      simpl in *; try done; try intuition congruence.
Qed.

(** An instance: the completed job X of [Window.trace]. *)
Lemma output_of_completed_job_witness :
  let p := deref (store Window.final) 0 in
  run init Window.trace = Some Window.final ∧
  store Window.final !! 0%nat = Some p ∧
  Status p = "completed" ∧
  let short := String.substring 0 8 (PromptID p) in
  let dest := "outputs" +:+ "/" +:+ "output_" +:+ short +:+ ".jpg" in
  String.length short = 8%nat ∧
  Output p = Some (JObject [("9", JObject [("images", JArray [
               JObject [("filename", JString (short +:+ ".png"));
                        ("subfolder", JString "");
                        ("type", JString "output")]])])]) ∧
  ∀ env, ∃ calls err,
    copyAndRenameImage (PromptID p) env = Some (MkdirAll "outputs" 511 :: calls, err) ∧
    (∀ name, Create name ∈ calls → name = dest) ∧
    (∀ dst src, Copy dst src ∈ calls → dst = dest ∧ src = "resources/image.jpg") ∧
    (r_MkdirAll env = None → r_Open env = None → r_Create env = None →
     calls = [Open "resources/image.jpg"; Create dest;
              Copy dest "resources/image.jpg";
              Close dest; Close "resources/image.jpg"] ∧
     err = (λ e, "复制文件内容失败: " +:+ e) <$> r_Copy env).
Proof.
  intros p.
  split; [vm_compute; reflexivity|].
  split; [vm_compute; reflexivity|].
  split; [vm_compute; reflexivity|].
  apply (output_of_completed_job Window.trace Window.final 0 p).
  - vm_compute; reflexivity.
  - vm_compute; reflexivity.
  - vm_compute; reflexivity.
Defined.

(** C10. An id made by [generatePromptID] has 36 characters, so that
    [promptID[:8]] is in range: neither [generateMockOutput] nor
    [copyAndRenameImage] panics on it, and the eight characters are the
    hexadecimal digits of the first four bytes. *)
Theorem generated_id_slice_in_range (u : UUID) :
  String.length (generatePromptID u) = 36%nat ∧
  (8 ≤ String.length (generatePromptID u))%nat ∧
  slice_to (generatePromptID u) 8 = Some (hex_Encode (take 4 (vec_to_list u))) ∧
  is_Some (generateMockOutput (generatePromptID u)) ∧
  ∀ env, is_Some (copyAndRenameImage (generatePromptID u) env).
Proof.
  assert (Hlen : String.length (generatePromptID u) = 36%nat)
    by apply length_uuid_String.
  split; [done|]. split; [lia|]. split; [|split].
  - rewrite slice_to_uuid. f_equal. unfold generatePromptID, uuid_String.
    cbv zeta. generalize (hex_Encode (take 2 (drop 4 (vec_to_list u))) +:+ "-" +:+
      hex_Encode (take 2 (drop 6 (vec_to_list u))) +:+ "-" +:+
      hex_Encode (take 2 (drop 8 (vec_to_list u))) +:+ "-" +:+
      hex_Encode (drop 10 (vec_to_list u))).
    intros rest.
    assert (Hpre : ∀ s1 s2, String.substring 0 (String.length s1) (s1 +:+ s2) = s1).
    { intros s1 s2. induction s1 as [|c s1 IH]; simpl.
      - by destruct s2.
      - change (String c s1 +:+ s2) with (String c (s1 +:+ s2)). simpl.
        by rewrite IH. }
    specialize (Hpre (hex_Encode (take 4 (vec_to_list u))) ("-" +:+ rest)).
    rewrite length_hex_Encode, length_take, length_vec_to_list in Hpre.
    exact Hpre.
  - apply generateMockOutput_uuid.
  - intros env. apply copyAndRenameImage_uuid.
Qed.

(** ** Sequence numbers *)

Lemma exec_submit w c pr u w' :
  exec w (EvPrompt (BindOk c pr) u) = Some w' →
  prompts (mock w') !! generatePromptID u = Some (length (store w)) ∧
  ∃ p, store w' !! length (store w) = Some p.
Proof.
  unfold exec. destruct (panicked w); [done|]. case_decide; [|done].
  intros [= <-]. simpl. split; [apply lookup_insert_eq|].
  eexists. by apply list_lookup_middle.
Qed.

(** C8. As long as fewer than 2^63 jobs have been submitted, so that the
    counter [m.queueID] of type [int] has not wrapped around, the ID given
    to an earlier submission is smaller than the ID given to a later one,
    and no two jobs have the same ID. *)
Theorem sequence_numbers_increase tr1 c1 pr1 u1 tr2 c2 pr2 u2 tr3 w :
  run init (tr1 ++ EvPrompt (BindOk c1 pr1) u1 ::
            tr2 ++ EvPrompt (BindOk c2 pr2) u2 :: tr3) = Some w →
  Z.of_nat (length (store w)) < 2 ^ 63 →
  (∃ (a1 a2 : nat) j1 j2,
     prompts (mock w) !! generatePromptID u1 = Some a1 ∧ store w !! a1 = Some j1 ∧
     prompts (mock w) !! generatePromptID u2 = Some a2 ∧ store w !! a2 = Some j2 ∧
     ID j1 < ID j2) ∧
  (∀ (a b : nat) p q,
     store w !! a = Some p → store w !! b = Some q → a ≠ b → ID p ≠ ID q).
Proof.
  intros Hrun Hbound. pose proof (consistent_run _ w Hrun) as Hc.
  assert (HID : ∀ (a : nat) p, store w !! a = Some p → ID p = Z.of_nat a + 1).
  { intros a p Ha. rewrite (c_ID w Hc a p Ha).
    apply lookup_lt_Some in Ha. apply int_wrap_small. lia. }
  split.
  2:{ intros a b p q Ha Hb Hne. rewrite (HID a p Ha), (HID b q Hb). lia. }
  rewrite run_app in Hrun.
  destruct (run init tr1) as [w1|]; [|done]. simpl in Hrun.
  destruct (exec w1 _) as [w2|] eqn:He1; [|done]. simpl in Hrun.
  rewrite run_app in Hrun.
  destruct (run w2 tr2) as [w3|] eqn:Hrun2; [|done]. simpl in Hrun.
  destruct (exec w3 _) as [w4|] eqn:He2; [|done]. simpl in Hrun.
  destruct (exec_submit _ _ _ _ _ He1) as [Hk1 [p1 Ha1]].
  destruct (run_keeps_job _ _ _ _ _ _ Hrun2 Hk1 Ha1) as (p1' & Hk1' & Ha1' & _).
  destruct (exec_keeps_job _ _ _ _ _ _ He2 Hk1' Ha1') as (p1'' & Hk1'' & Ha1'' & _).
  destruct (run_keeps_job _ _ _ _ _ _ Hrun Hk1'' Ha1'') as (j1 & Hj1k & Hj1 & _).
  destruct (exec_submit _ _ _ _ _ He2) as [Hk2 [p2 Ha2]].
  destruct (run_keeps_job _ _ _ _ _ _ Hrun Hk2 Ha2) as (j2 & Hj2k & Hj2 & _).
  exists (length (store w1)), (length (store w3)), j1, j2.
  repeat split; try done.
  rewrite (HID _ _ Hj1), (HID _ _ Hj2).
  apply lookup_lt_Some in Ha1'. lia.
Qed.

(** An instance: the two submissions of [Pair.trace]. *)
Lemma sequence_numbers_increase_witness :
  run init ([] ++ EvPrompt (BindOk "c1" JNull) Race.uX ::
            [] ++ EvPrompt (BindOk "c1" JNull) Race.uY :: []) = Some Pair.final ∧
  Z.of_nat (length (store Pair.final)) < 2 ^ 63 ∧
  (∃ (a1 a2 : nat) j1 j2,
     prompts (mock Pair.final) !! generatePromptID Race.uX = Some a1 ∧
     store Pair.final !! a1 = Some j1 ∧
     prompts (mock Pair.final) !! generatePromptID Race.uY = Some a2 ∧
     store Pair.final !! a2 = Some j2 ∧
     ID j1 < ID j2) ∧
  (∀ (a b : nat) p q,
     store Pair.final !! a = Some p → store Pair.final !! b = Some q →
     a ≠ b → ID p ≠ ID q).
Proof.
  split; [vm_compute; reflexivity|].
  split; [vm_compute; reflexivity|].
  apply (sequence_numbers_increase [] "c1" JNull Race.uX [] "c1" JNull Race.uY []
           Pair.final).
  - vm_compute; reflexivity.
  - vm_compute; reflexivity.
Defined.

(** ** Queries *)

(** C9, as stated, fails: with two pending jobs, a second [GET /queue] on
    the same world lists them in the other order when its [range] visits
    the table in the other order. *)
Lemma queue_order_not_stable :
  run init Pair.trace = Some Pair.final ∧
  range_order Pair.final Pair.order1 ∧
  range_order Pair.final Pair.order2 ∧
  (handleQueue (handleQueue Pair.final Pair.order1).2 Pair.order2).1 ≠
  (handleQueue Pair.final Pair.order1).1.
Proof.
  split; [vm_compute; reflexivity|].
  split; [compute_done|].
  split; [compute_done|].
  vm_compute. intros [=].
Qed.

(** C9, amended. [handleHistory] and [handleQueue] leave the world as it
    is; asked again in that world, [handleHistory] gives the same answer
    and [handleQueue] the same running list and the same pending entries,
    in an order that may differ. *)
Theorem queries_read_only w k order1 order2 :
  range_order w order1 → range_order w order2 →
  (handleHistory w k).2 = w ∧ (handleQueue w order1).2 = w ∧
  (handleHistory (handleHistory w k).2 k).1 = (handleHistory w k).1 ∧
  ∃ running pending1 pending2,
    (handleQueue w order1).1 =
      JSON 200 (JObject [("queue_running", JArray running);
                         ("queue_pending", JArray pending1)]) ∧
    (handleQueue (handleQueue w order1).2 order2).1 =
      JSON 200 (JObject [("queue_running", JArray running);
                         ("queue_pending", JArray pending2)]) ∧
    pending1 ≡ₚ pending2.
Proof.
  intros H1 H2.
  assert (Hh : (handleHistory w k).2 = w).
  { unfold handleHistory. destruct (prompts (mock w) !! k); [|done].
    cbv zeta. by case_decide. }
  split; [done|]. split; [done|]. split; [by rewrite Hh|].
  eexists _, _, _. split; [reflexivity|]. split; [reflexivity|].
  apply queuePending_Permutation. unfold range_order in *. by rewrite H1, H2.
Qed.

(** An instance: the two pending jobs of [Pair.trace] and the two orders
    of the table. *)
Lemma queries_read_only_witness :
  range_order Pair.final Pair.order1 ∧
  range_order Pair.final Pair.order2 ∧
  (handleHistory Pair.final Race.kX).2 = Pair.final ∧
  (handleQueue Pair.final Pair.order1).2 = Pair.final ∧
  (handleHistory (handleHistory Pair.final Race.kX).2 Race.kX).1 =
    (handleHistory Pair.final Race.kX).1 ∧
  ∃ running pending1 pending2,
    (handleQueue Pair.final Pair.order1).1 =
      JSON 200 (JObject [("queue_running", JArray running);
                         ("queue_pending", JArray pending1)]) ∧
    (handleQueue (handleQueue Pair.final Pair.order1).2 Pair.order2).1 =
      JSON 200 (JObject [("queue_running", JArray running);
                         ("queue_pending", JArray pending2)]) ∧
    pending1 ≡ₚ pending2.
Proof.
  split; [compute_done|].
  split; [compute_done|].
  apply (queries_read_only Pair.final Race.kX Pair.order1 Pair.order2).
  - compute_done.
  - compute_done.
Defined.

(** ** Failure of the copy *)

Lemma same_answers_intro w1 w2 :
  store w1 = store w2 → mock w1 = mock w2 → same_answers w1 w2.
Proof.
  intros Hst Hm k order. unfold handleHistory, handleQueue, queueRunning.
  rewrite Hst, Hm. split; [|done].
  destruct (prompts (mock w2) !! k); [|done]. cbv zeta. by case_decide.
Qed.

(** C4. When [copyAndRenameImage] returns an error for the job a goroutine
    is processing, [processPrompt] still completes the job and stores its
    result; the error goes to the standard output and nowhere else, every
    query being answered as if the copy had succeeded. The goroutine then
    clears the marker and starts [processQueue] again, which picks a pending
    job if there is one. *)
Theorem copy_failure_only_logged tr w (i a : nat) env e :
  run init tr = Some w → panicked w = false →
  goroutines w !! i = Some (PQ_process (Some a)) →
  snd <$> copyAndRenameImage (PromptID (deref (store w) a)) env = Some (Some e) →
  ∃ w' w_ok p out,
    exec w (EvProcess i env) = Some w' ∧
    store w' !! a = Some p ∧ Status p = "completed" ∧ Output p = Some out ∧
    stdout w' = stdout w ++ ["复制和重命名图片时出错: " +:+ e +:+ newline] ∧
    panicked w' = false ∧
    exec w (EvProcess i no_errors) = Some w_ok ∧ same_answers w' w_ok ∧
    goroutines w' !! i = Some PQ_clear ∧
    ∃ w'', exec w' (EvClear i) = Some w'' ∧
      runningTask (mock w'') = None ∧ store w'' = store w' ∧
      goroutines w'' !! length (goroutines w') = Some PQ_lock ∧
      ∀ order b, range_order w'' order →
        first_pending (store w'') order = Some b →
        ∃ w3, exec w'' (EvLock (length (goroutines w')) order) = Some w3 ∧
              runningTask (mock w3) = Some b ∧
              Status (deref (store w3) b) = "processing".
Proof.
  intros Hrun Hpan Hi Hfail. pose proof (consistent_run tr w Hrun) as Hc.
  destruct (c_workers w Hc i a Hi) as (p0 & Ha & _).
  assert (Hlt : (i < length (goroutines w))%nat) by (by eapply lookup_lt_Some).
  destruct (processPrompt_Some w a p0 env Hc Ha)
    as (out & calls & err & Hout & Hcopy & Hpp).
  destruct (processPrompt_Some w a p0 no_errors Hc Ha)
    as (out' & calls' & err' & Hout' & _ & Hpp').
  rewrite (deref_lookup _ _ _ Ha), Hcopy in Hfail. injection Hfail as ->.
  assert (out' = out) as -> by congruence.
  eexists _, _, _, out.
  split. { unfold exec. rewrite Hpan, Hi, Hpp. reflexivity. }
  simpl.
  split. { apply list_lookup_insert_eq. by eapply lookup_lt_Some. }
  split; [done|]. split; [done|]. split; [done|]. split; [done|].
  split. { unfold exec. rewrite Hpan, Hi, Hpp'. reflexivity. }
  split. { by apply same_answers_intro. }
  split. { by apply list_lookup_insert_eq. }
  eexists. split.
  { unfold exec. simpl. rewrite Hpan, list_lookup_insert_eq by done. reflexivity. }
  simpl. split; [done|]. split; [done|].
  split. { apply list_lookup_middle. by rewrite !length_insert. }
  intros order b Horder Hb. eexists. split.
  { unfold exec. simpl.
    rewrite list_lookup_middle by (by rewrite !length_insert).
    rewrite decide_True by done.
    unfold processQueue_lock. simpl. rewrite Hb. reflexivity. }
  simpl. split; [done|].
  apply first_pending_Some in Hb as [Hs _].
  apply deref_pending_lookup in Hs as Hlook.
  unfold deref. by rewrite list_lookup_alter_eq, Hlook.
Qed.

(** An instance: the job of [Picked.trace] when the source asset is missing. *)
Lemma copy_failure_only_logged_witness :
  let w := Picked.final in
  let e := "打开源文件失败: open resources/image.jpg: no such file or directory" in
  run init Picked.trace = Some w ∧ panicked w = false ∧
  goroutines w !! 0%nat = Some (PQ_process (Some 0%nat)) ∧
  snd <$> copyAndRenameImage (PromptID (deref (store w) 0)) missing_source =
    Some (Some e) ∧
  ∃ w' w_ok p out,
    exec w (EvProcess 0 missing_source) = Some w' ∧
    store w' !! 0%nat = Some p ∧ Status p = "completed" ∧ Output p = Some out ∧
    stdout w' = stdout w ++ ["复制和重命名图片时出错: " +:+ e +:+ newline] ∧
    panicked w' = false ∧
    exec w (EvProcess 0 no_errors) = Some w_ok ∧ same_answers w' w_ok ∧
    goroutines w' !! 0%nat = Some PQ_clear ∧
    ∃ w'', exec w' (EvClear 0) = Some w'' ∧
      runningTask (mock w'') = None ∧ store w'' = store w' ∧
      goroutines w'' !! length (goroutines w') = Some PQ_lock ∧
      ∀ order b, range_order w'' order →
        first_pending (store w'') order = Some b →
        ∃ w3, exec w'' (EvLock (length (goroutines w')) order) = Some w3 ∧
              runningTask (mock w3) = Some b ∧
              Status (deref (store w3) b) = "processing".
Proof.
  intros w e.
  split; [vm_compute; reflexivity|].
  split; [vm_compute; reflexivity|].
  split; [vm_compute; reflexivity|].
  split; [vm_compute; reflexivity|].
  apply (copy_failure_only_logged Picked.trace w 0 0 missing_source e).
  - vm_compute; reflexivity.
  - vm_compute; reflexivity.
  - vm_compute; reflexivity.
  - vm_compute; reflexivity.
Defined.



(** * Further properties *)

(** ** Rejected requests *)

(** X1. A request that [ShouldBindJSON] rejects is answered 400 with the
    message of the binder and leaves the world as it is: an execution without
    its rejected requests ends in the same world. *)
Theorem rejected_requests_leave_no_trace w tr w' :
  run w tr = Some w' →
  run w (List.filter accepted tr) = Some w' ∧
  ∀ msg u,
    handlePrompt w' (BindErr msg) u =
      (JSON 400 (JObject [("error", JString msg)]), w').
Proof.
  intros Hrun. split; [|done].
  revert w Hrun. induction tr as [|e tr IH]; intros w; simpl; [done|].
  destruct (exec w e) as [w1|] eqn:He; [|done]. simpl. intros Hrun.
  destruct (accepted e) eqn:Hacc.
  - simpl. rewrite He. simpl. by apply IH.
  - destruct e as [[msg|c pr] u| | | | |]; try done.
    unfold exec in He. destruct (panicked w); [done|].
    injection He as <-. by apply IH.
Qed.

(** An instance: a rejected request between the two submissions of
    [Pair.trace]. *)
Lemma rejected_requests_leave_no_trace_witness :
  let tr := [Race.submit Race.uX; EvPrompt (BindErr "EOF") Race.uZ;
             Race.submit Race.uY] in
  run init tr = Some Pair.final ∧
  run init (List.filter accepted tr) = Some Pair.final ∧
  ∀ msg u,
    handlePrompt Pair.final (BindErr msg) u =
      (JSON 400 (JObject [("error", JString msg)]), Pair.final).
Proof.
  intros tr. split; [vm_compute; reflexivity|].
  apply (rejected_requests_leave_no_trace init tr Pair.final).
  vm_compute; reflexivity.
Defined.

(** ** The first eight characters *)

Lemma append_inj_l (s1 s2 x y : string) :
  String.length s1 = String.length s2 → s1 +:+ x = s2 +:+ y → s1 = s2.
Proof.
  revert s2. induction s1 as [|c s1 IH]; intros [|d s2]; simpl; try done.
  intros [= Hlen].
  change (String c s1 +:+ x) with (String c (s1 +:+ x)).
  change (String d s2 +:+ y) with (String d (s2 +:+ y)).
  intros [= -> Heq]. f_equal. by apply IH.
Qed.

Lemma slice_to_length (s : string) (n : nat) short :
  slice_to s n = Some short → String.length short = n.
Proof.
  unfold slice_to. case_decide; [|done]. intros [= <-].
  by apply length_substring_0.
Qed.

Lemma slice_to_None (s : string) (n : nat) :
  slice_to s n = None ↔ (String.length s < n)%nat.
Proof. unfold slice_to. case_decide; split; try done; lia. Qed.

Lemma no_separator_in_hex (b : Byte.byte) :
  negb (Ascii.eqb (hex_digit (N.shiftr (Byte.to_N b) 4)) "/"%char) &&
  negb (Ascii.eqb (hex_digit (N.land (Byte.to_N b) 15)) "/"%char) = true.
Proof. destruct b; reflexivity. Qed.

Lemma separator_free_hex_Encode (src : list Byte.byte) :
  separator_free (hex_Encode src) = true.
Proof.
  induction src as [|b src IH]; simpl; [done|].
  pose proof (no_separator_in_hex b) as [-> ->]%andb_prop. by rewrite IH.
Qed.

Lemma substring_append_prefix (s1 s2 : string) :
  String.substring 0 (String.length s1) (s1 +:+ s2) = s1.
Proof.
  induction s1 as [|c s1 IH]; simpl; [by destruct s2|].
  change (String c s1 +:+ s2) with (String c (s1 +:+ s2)). simpl. by rewrite IH.
Qed.

Lemma separator_free_uuid (u : UUID) a :
  slice_to (generatePromptID u) 8 = Some a → separator_free a = true.
Proof.
  rewrite slice_to_uuid. intros [= <-].
  unfold generatePromptID, uuid_String. cbv zeta.
  pose proof (substring_append_prefix (hex_Encode (take 4 (vec_to_list u)))) as Hpre.
  rewrite length_hex_Encode, length_take, length_vec_to_list in Hpre.
  change (2 * (4 `min` 16))%nat with 8%nat in Hpre.
  rewrite Hpre. apply separator_free_hex_Encode.
Qed.

(** X9. [generateMockOutput] and [copyAndRenameImage] panic exactly on the
    ids of fewer than eight characters, and the result document is decided
    by [promptID[:8]] alone.  For ids whose first eight characters contain no
    separator, as those of every generated id, the calls of
    [copyAndRenameImage] are decided by them too, once the directory is made
    and the source opened: two such ids get the same calls exactly when
    their first eight characters are the same. *)
Theorem output_decided_by_first_eight (s1 s2 : string) (env : os_results) :
  (generateMockOutput s1 = None ↔ (String.length s1 < 8)%nat) ∧
  (copyAndRenameImage s1 env = None ↔ (String.length s1 < 8)%nat) ∧
  (generateMockOutput s1 = generateMockOutput s2 ↔ slice_to s1 8 = slice_to s2 8) ∧
  (r_MkdirAll env = None → r_Open env = None →
   ∀ a b, slice_to s1 8 = Some a → slice_to s2 8 = Some b →
          separator_free a = true → separator_free b = true →
          (copyAndRenameImage s1 env = copyAndRenameImage s2 env ↔ a = b)) ∧
  (∀ (u : UUID) a, slice_to (generatePromptID u) 8 = Some a →
                   separator_free a = true).
Proof.
  split; [|split; [|split; [|split]]].
  - unfold generateMockOutput. rewrite <- slice_to_None.
    by destruct (slice_to s1 8).
  - unfold copyAndRenameImage. rewrite <- slice_to_None.
    by destruct (slice_to s1 8).
  - unfold generateMockOutput. split; [|by intros ->].
    destruct (slice_to s1 8) as [a|] eqn:H1, (slice_to s2 8) as [b|] eqn:H2;
      try done.
    intros [= Heq]. f_equal.
    apply (append_inj_l a b ".png" ".png"); [|done].
    by rewrite (slice_to_length _ _ _ H1), (slice_to_length _ _ _ H2).
  - intros Hmk Hop a b H1 H2 _ _. unfold copyAndRenameImage.
    rewrite Hmk, Hop, H1, H2. split; [|by intros ->].
    intros Heq.
    assert (Hdest : filepath_Join outputDir ("output_" +:+ a +:+ ".jpg") =
                    filepath_Join outputDir ("output_" +:+ b +:+ ".jpg")).
    { cbv zeta in Heq. destruct (r_Create env); congruence. }
    unfold filepath_Join, outputDir in Hdest.
    apply (append_inj_l a b ".jpg" ".jpg").
    + by rewrite (slice_to_length _ _ _ H1), (slice_to_length _ _ _ H2).
    + revert Hdest. generalize (a +:+ ".jpg") (b +:+ ".jpg"). intros x y.
      vm_compute. intros [= ->]. reflexivity.
  - apply separator_free_uuid.
Qed.

(** ** The calls of [copyAndRenameImage] *)

Lemma dest_not_source (short : string) :
  filepath_Join outputDir ("output_" +:+ short +:+ ".jpg") ≠ sourcePath.
Proof.
  generalize ("output_" +:+ short +:+ ".jpg"). intros x.
  vm_compute. intros [=].
Qed.

(** X8. [copyAndRenameImage] returns nil exactly when the four operations
    succeed; it stops at the first one that fails, makes no call twice, and
    closes exactly the files it has opened: the source when [os.Open]
    succeeded, the destination when [os.Create] succeeded. *)
Theorem copy_closes_what_it_opened promptID env calls err :
  copyAndRenameImage promptID env = Some (calls, err) →
  (err = None ↔ os_ok env = true) ∧
  NoDup calls ∧
  (r_MkdirAll env ≠ None → calls = [MkdirAll "outputs" 511]) ∧
  (Close sourcePath ∈ calls ↔ Open sourcePath ∈ calls ∧ r_Open env = None) ∧
  (∀ name, Create name ∈ calls →
     Open sourcePath ∈ calls ∧ r_Open env = None ∧
     (Close name ∈ calls ↔ r_Create env = None) ∧
     (Copy name sourcePath ∈ calls ↔ r_Create env = None)).
Proof.
  unfold copyAndRenameImage. destruct (slice_to promptID 8) as [short|]; [|done].
  pose proof (dest_not_source short) as Hne.
  set (dest := filepath_Join outputDir ("output_" +:+ short +:+ ".jpg")) in *.
  assert (Hin : ∀ (c : os_call) l, c ∈ l ↔ In c l).
  { intros c l. by rewrite list_elem_of_In. }
  destruct env as [[e1|] [e2|] [e3|] [e4|]]; simpl; intros [= <- <-];
    (split; [done|]);
    (split; [repeat (apply NoDup_cons; split;
               [rewrite Hin; simpl; intuition congruence|]); apply NoDup_nil_2|]);
    (split; [done|]);
    (split; [rewrite !Hin; simpl; intuition congruence|]);
    intros name; rewrite !Hin; simpl;
    intuition (try congruence; simplify_eq; auto).
Qed.

(** An instance: the source asset is missing. *)
Lemma copy_closes_what_it_opened_witness :
  let calls := [MkdirAll "outputs" 511; Open "resources/image.jpg"] in
  let err := Some "打开源文件失败: open resources/image.jpg: no such file or directory" in
  copyAndRenameImage Race.kX missing_source = Some (calls, err) ∧
  (err = None ↔ os_ok missing_source = true) ∧
  NoDup calls ∧
  (r_MkdirAll missing_source ≠ None → calls = [MkdirAll "outputs" 511]) ∧
  (Close sourcePath ∈ calls ↔
   Open sourcePath ∈ calls ∧ r_Open missing_source = None) ∧
  (∀ name, Create name ∈ calls →
     Open sourcePath ∈ calls ∧ r_Open missing_source = None ∧
     (Close name ∈ calls ↔ r_Create missing_source = None) ∧
     (Copy name sourcePath ∈ calls ↔ r_Create missing_source = None)).
Proof.
  intros calls err. split; [vm_compute; reflexivity|].
  apply (copy_closes_what_it_opened Race.kX missing_source calls err).
  vm_compute; reflexivity.
Defined.

(** ** Submission and the queue *)

Lemma range_order_elem_of w order k (a : nat) :
  range_order w order → ((k, a) ∈ order ↔ prompts (mock w) !! k = Some a).
Proof.
  unfold range_order. intros ->. apply elem_of_map_to_list.
Qed.

Lemma elem_of_queuePending_2 st order k (a : nat) :
  (k, a) ∈ order → Status (deref st a) = "pending" →
  queue_entry (deref st a) ∈ queuePending st order.
Proof.
  induction order as [|[k' a'] rest IH]; simpl; [by intros ?%elem_of_nil|].
  intros [[= -> ->]|Hin]%elem_of_cons Hs.
  - rewrite decide_True by done. left.
  - case_decide; [right|]; by apply IH.
Qed.

Lemma first_pending_None st order k (a : nat) :
  first_pending st order = None → (k, a) ∈ order →
  Status (deref st a) ≠ "pending".
Proof.
  induction order as [|[k' b] rest IH]; simpl; [by intros _ ?%elem_of_nil|].
  case_decide as Hs; [done|].
  intros H [[= -> ->]|Hin]%elem_of_cons; [done|]. by apply IH.
Qed.

(** X2. A submission accepted in a reachable world is answered 200 with the
    new id; the id was unknown to [handleHistory] before, and right after it
    [handleHistory] answers the empty object and [handleQueue] lists the job
    in queue_pending, with the value of the counter as its number and the
    payload as submitted, and not in queue_running. *)
Theorem submit_then_query tr w c pr u w' :
  run init tr = Some w → exec w (EvPrompt (BindOk c pr) u) = Some w' →
  let k := generatePromptID u in
  (handlePrompt w (BindOk c pr) u).1 =
    JSON 200 (JObject [("prompt_id", JString k)]) ∧
  (handleHistory w k).1 =
    JSON 404 (JObject [("error", JString "Prompt not found")]) ∧
  (handleHistory w' k).1 = JSON 200 (JObject []) ∧
  ∀ order, range_order w' order →
    JArray [JInt (queueID (mock w')); JString k; pr; JArray [JString "9"]]
      ∈ queuePending (store w') order ∧
    ¬ lists k (queueRunning w').
Proof.
  intros Hrun He k. pose proof (consistent_run tr w Hrun) as Hc.
  unfold exec in He. destruct (panicked w); [done|].
  case_decide as Hfresh; [|done]. injection He as Hw'.
  fold k in Hfresh.
  set (job := mkPromptInfo pr c "pending" None (int_wrap (queueID (mock w) + 1)) k).
  assert (Hk' : prompts (mock w') !! k = Some (length (store w))).
  { rewrite <- Hw'. simpl. apply lookup_insert_eq. }
  assert (Hst : store w' = store w ++ [job]) by (by rewrite <- Hw').
  assert (Hnew : deref (store w') (length (store w)) = job).
  { apply deref_lookup. rewrite Hst. by apply list_lookup_middle. }
  assert (Hq : queueID (mock w') = ID job) by (by rewrite <- Hw').
  assert (Hrt : runningTask (mock w') = runningTask (mock w)) by (by rewrite <- Hw').
  clear Hw'.
  split; [done|]. split.
  { unfold handleHistory. by rewrite Hfresh. }
  split.
  { unfold handleHistory. rewrite Hk'. cbv zeta. rewrite Hnew.
    by rewrite decide_True. }
  intros order Horder. split.
  - assert (Hin : (k, length (store w)) ∈ order)
      by (by apply (range_order_elem_of _ _ _ _ Horder)).
    pose proof (elem_of_queuePending_2 (store w') order k _ Hin) as Hpend.
    rewrite Hnew, Hq in *. by apply Hpend.
  - intros (e & (a & Hr & ->)%elem_of_queueRunning & Hid).
    rewrite Hrt in Hr. destruct (c_running w Hc a Hr) as (p & Ha & _).
    unfold deref in Hid. rewrite Hst, (lookup_app_l_Some _ _ _ _ Ha) in Hid.
    simpl in Hid. injection Hid as Hid.
    pose proof (c_key w Hc a p Ha) as Hk. rewrite Hid in Hk. congruence.
Qed.

(** An instance: the second submission of [Pair.trace]. *)
Lemma submit_then_query_witness :
  let w := (handlePrompt init (BindOk "c1" JNull) Race.uX).2 in
  let k := generatePromptID Race.uY in
  run init [Race.submit Race.uX] = Some w ∧
  exec w (EvPrompt (BindOk "c1" JNull) Race.uY) = Some Pair.final ∧
  (handlePrompt w (BindOk "c1" JNull) Race.uY).1 =
    JSON 200 (JObject [("prompt_id", JString k)]) ∧
  (handleHistory w k).1 =
    JSON 404 (JObject [("error", JString "Prompt not found")]) ∧
  (handleHistory Pair.final k).1 = JSON 200 (JObject []) ∧
  ∀ order, range_order Pair.final order →
    JArray [JInt (queueID (mock Pair.final)); JString k; JNull;
            JArray [JString "9"]]
      ∈ queuePending (store Pair.final) order ∧
    ¬ lists k (queueRunning Pair.final).
Proof.
  intros w k.
  split; [vm_compute; reflexivity|].
  split; [vm_compute; reflexivity|].
  apply (submit_then_query [Race.submit Race.uX] w "c1" JNull Race.uY Pair.final).
  - vm_compute; reflexivity.
  - vm_compute; reflexivity.
Defined.

Lemma NoDup_queuePending st order :
  (∀ k (a : nat), (k, a) ∈ order → PromptID (deref st a) = k) →
  NoDup order.*1 → NoDup (queuePending st order).
Proof.
  induction order as [|[k a] rest IH]; simpl; [intros; apply NoDup_nil_2|].
  intros Hid [Hk Hnd]%NoDup_cons.
  assert (Hrest : NoDup (queuePending st rest)).
  { apply IH; [|done]. intros k' a' Hin. apply Hid. by right. }
  case_decide; [|done]. apply NoDup_cons. split; [|done].
  intros (k' & a' & Hin & _ & Heq)%elem_of_queuePending.
  apply Hk. apply list_elem_of_fmap. exists (k', a'). split; [|done]. simpl.
  rewrite <- (Hid k a) by left. rewrite <- (Hid k' a') by (by right).
  unfold queue_entry in Heq. congruence.
Qed.

(** X3. In a reachable world and for every order of the table, queue_pending
    holds the entries of the jobs of the table whose status is pending,
    those and no others, each of them once. *)
Theorem pending_list_exact tr w order :
  run init tr = Some w → range_order w order →
  (∀ e, e ∈ queuePending (store w) order ↔
        ∃ k (a : nat) p, prompts (mock w) !! k = Some a ∧ store w !! a = Some p ∧
                 Status p = "pending" ∧ e = queue_entry p) ∧
  NoDup (queuePending (store w) order).
Proof.
  intros Hrun Horder. pose proof (consistent_run tr w Hrun) as Hc. split.
  - intros e. split.
    + intros (k & a & Hin & Hs & ->)%elem_of_queuePending.
      exists k, a, (deref (store w) a).
      split; [by apply (range_order_elem_of _ _ _ _ Horder)|].
      split; [by apply deref_pending_lookup|done].
    + intros (k & a & p & Hk & Ha & Hs & ->).
      rewrite <- (deref_lookup _ _ _ Ha).
      apply (elem_of_queuePending_2 _ _ k).
      * by apply (range_order_elem_of _ _ _ _ Horder).
      * by rewrite (deref_lookup _ _ _ Ha).
  - apply NoDup_queuePending.
    + intros k a Hin%(range_order_elem_of _ _ _ _ Horder).
      destruct (c_table w Hc k a Hin) as (p & Ha & <-).
      by rewrite (deref_lookup _ _ _ Ha).
    + unfold range_order in Horder. rewrite Horder.
      apply NoDup_fst_map_to_list.
Qed.

(** An instance: the two pending jobs of [Pair.trace]. *)
Lemma pending_list_exact_witness :
  run init Pair.trace = Some Pair.final ∧
  range_order Pair.final Pair.order2 ∧
  (∀ e, e ∈ queuePending (store Pair.final) Pair.order2 ↔
        ∃ k (a : nat) p, prompts (mock Pair.final) !! k = Some a ∧
                 store Pair.final !! a = Some p ∧
                 Status p = "pending" ∧ e = queue_entry p) ∧
  NoDup (queuePending (store Pair.final) Pair.order2).
Proof.
  split; [vm_compute; reflexivity|].
  split; [compute_done|].
  apply (pending_list_exact Pair.trace Pair.final Pair.order2).
  - vm_compute; reflexivity.
  - compute_done.
Defined.

(** ** The guard of [processQueue] *)

(** X5. Lines 148-161, run in a reachable world.  When the marker is set
    the goroutine returns and changes nothing.  When it is nil and no job of
    the table is pending, the goroutine goes on to line 163 and changes
    nothing.  When it is nil and some job is pending, one pending job of the
    table becomes the marker and its status becomes processing; no other job
    and no other field of that job changes. *)
Theorem processQueue_picks_pending tr w (i : nat) order w' :
  run init tr = Some w → exec w (EvLock i order) = Some w' →
  (is_Some (runningTask (mock w)) →
     store w' = store w ∧ mock w' = mock w ∧
     goroutines w' !! i = Some PQ_done) ∧
  (runningTask (mock w) = None →
     (∀ k (a : nat) p, prompts (mock w) !! k = Some a → store w !! a = Some p →
                Status p ≠ "pending") →
     store w' = store w ∧ mock w' = mock w ∧
     goroutines w' !! i = Some PQ_check) ∧
  (runningTask (mock w) = None →
     (∃ k (a : nat) p, prompts (mock w) !! k = Some a ∧ store w !! a = Some p ∧
                Status p = "pending") →
     ∃ k (a : nat) p q,
       prompts (mock w) !! k = Some a ∧ store w !! a = Some p ∧
       Status p = "pending" ∧
       runningTask (mock w') = Some a ∧
       store w' !! a = Some q ∧ Status q = "processing" ∧ Output q = Output p ∧
       same_job p q ∧
       (∀ b : nat, b ≠ a → store w' !! b = store w !! b) ∧
       prompts (mock w') = prompts (mock w) ∧
       queueID (mock w') = queueID (mock w) ∧
       goroutines w' !! i = Some PQ_check).
Proof.
  intros Hrun He. pose proof (consistent_run tr w Hrun) as Hc.
  unfold exec in He. destruct (panicked w); [done|].
  destruct (goroutines w !! i) as [[]|] eqn:Hi; try done.
  case_decide as Horder; [|done]. injection He as <-.
  assert (Hlt : (i < length (goroutines w))%nat) by (by eapply lookup_lt_Some).
  unfold processQueue_lock. split; [|split].
  - intros [r Hr]. rewrite Hr. simpl.
    by rewrite list_lookup_insert_eq.
  - intros Hr Hnone. rewrite Hr.
    destruct (first_pending (store w) order) as [a|] eqn:Hf.
    + apply first_pending_Some in Hf as [Hs [k Hin]].
      apply (range_order_elem_of _ _ _ _ Horder) in Hin.
      destruct (Hnone k a _ Hin (deref_pending_lookup _ _ Hs) Hs).
    + simpl. by rewrite list_lookup_insert_eq.
  - intros Hr (k & a & p & Hk & Ha & Hs). rewrite Hr.
    destruct (first_pending (store w) order) as [b|] eqn:Hf.
    + apply first_pending_Some in Hf as [Hsb [kb Hin]].
      apply (range_order_elem_of _ _ _ _ Horder) in Hin.
      pose proof (deref_pending_lookup _ _ Hsb) as Hb.
      exists kb, b, (deref (store w) b), (set_Status "processing" (deref (store w) b)).
      simpl. rewrite list_lookup_alter_eq, Hb, list_lookup_insert_eq by done.
      repeat split; try done.
      intros b' Hne. by rewrite list_lookup_alter_ne.
    + apply (range_order_elem_of _ _ _ _ Horder) in Hk.
      pose proof (first_pending_None _ _ _ _ Hf Hk) as Hn.
      by rewrite (deref_lookup _ _ _ Ha) in Hn.
Qed.

(** An instance: goroutine 0 of [Pair.trace] takes the lock. *)
Lemma processQueue_picks_pending_witness :
  let w' := processQueue_lock Pair.final 0 Pair.order2 in
  run init Pair.trace = Some Pair.final ∧
  exec Pair.final (EvLock 0 Pair.order2) = Some w' ∧
  (is_Some (runningTask (mock Pair.final)) →
     store w' = store Pair.final ∧ mock w' = mock Pair.final ∧
     goroutines w' !! 0%nat = Some PQ_done) ∧
  (runningTask (mock Pair.final) = None →
     (∀ k (a : nat) p, prompts (mock Pair.final) !! k = Some a →
                store Pair.final !! a = Some p → Status p ≠ "pending") →
     store w' = store Pair.final ∧ mock w' = mock Pair.final ∧
     goroutines w' !! 0%nat = Some PQ_check) ∧
  (runningTask (mock Pair.final) = None →
     (∃ k (a : nat) p, prompts (mock Pair.final) !! k = Some a ∧
                store Pair.final !! a = Some p ∧ Status p = "pending") →
     ∃ k (a : nat) p q,
       prompts (mock Pair.final) !! k = Some a ∧ store Pair.final !! a = Some p ∧
       Status p = "pending" ∧
       runningTask (mock w') = Some a ∧
       store w' !! a = Some q ∧ Status q = "processing" ∧ Output q = Output p ∧
       same_job p q ∧
       (∀ b : nat, b ≠ a → store w' !! b = store Pair.final !! b) ∧
       prompts (mock w') = prompts (mock Pair.final) ∧
       queueID (mock w') = queueID (mock Pair.final) ∧
       goroutines w' !! 0%nat = Some PQ_check).
Proof.
  intros w'.
  split; [vm_compute; reflexivity|].
  split; [vm_compute; reflexivity|].
  apply (processQueue_picks_pending Pair.trace Pair.final 0 Pair.order2 w').
  - vm_compute; reflexivity.
  - vm_compute; reflexivity.
Defined.

(** ** The life of a job *)

Lemma status_rank_le_2 s : (status_rank s ≤ 2)%nat.
Proof. unfold status_rank. repeat case_decide; lia. Qed.

Lemma exec_advances_job w e w' k (a : nat) p :
  consistent w → exec w e = Some w' →
  prompts (mock w) !! k = Some a → store w !! a = Some p →
  ∃ q, prompts (mock w') !! k = Some a ∧ store w' !! a = Some q ∧
       (status_rank (Status p) ≤ status_rank (Status q))%nat ∧
       (Status p = "completed" →
        Status q = "completed" ∧ Output q = Output p ∧ Prompt q = Prompt p).
Proof.
  intros Hc [_ Hstep]%exec_step Hk Ha.
  destruct Hstep as [msg u|c pr u Hf|i order Hi Ho|i Hi|i Hi|i prompt env w1 Hi Hp
                    |i prompt env Hi Hp|i Hi]; try (by exists p).
  - exists p. simpl. rewrite lookup_insert_ne by congruence.
    split; [done|]. split; [by apply lookup_app_l_Some|done].
  - unfold processQueue_lock.
    destruct (runningTask (mock w)); [by exists p|].
    destruct (first_pending (store w) order) as [b|] eqn:Hf; [|by exists p].
    simpl. destruct (decide (a = b)) as [<-|Hne].
    + apply first_pending_Some in Hf as [Hs _].
      rewrite (deref_lookup _ _ _ Ha) in Hs.
      exists (set_Status "processing" p).
      rewrite list_lookup_alter_eq, Ha. simpl. rewrite Hs.
      repeat split; try done. vm_compute. lia.
    + exists p. by rewrite list_lookup_alter_ne.
  - unfold processQueue_check. destruct (runningTask (mock w)); by exists p.
  - apply processPrompt_inv in Hp as (b & out & calls & err & _ & Hout & _ & ->).
    simpl. destruct (decide (a = b)) as [<-|Hne].
    + rewrite (deref_lookup _ _ _ Ha) in *.
      eexists. rewrite list_lookup_insert_eq by (by eapply lookup_lt_Some).
      split; [done|]. split; [done|]. simpl.
      split; [apply status_rank_le_2|]. intros Hs.
      destruct (c_state w Hc a p Ha) as [[? _]|[[? _]|(_ & _ & Ho)]];
        [congruence|congruence|].
      split; [done|]. split; [congruence|done].
    + exists p. by rewrite list_lookup_insert_ne.
Qed.

(** X4. Along every execution a job stays in the table under its id, with
    the payload, client id, number and id it was stored with, and its status
    only moves forward, from pending to processing to completed.  Once
    completed it stays completed, with the same result. *)
Theorem status_only_advances tr1 w tr2 w' k (a : nat) p :
  run init tr1 = Some w → run w tr2 = Some w' →
  prompts (mock w) !! k = Some a → store w !! a = Some p →
  ∃ q, prompts (mock w') !! k = Some a ∧ store w' !! a = Some q ∧
       same_job p q ∧
       (status_rank (Status p) ≤ status_rank (Status q))%nat ∧
       (Status p = "completed" → Status q = "completed" ∧ Output q = Output p).
Proof.
  intros Hrun1 Hrun2 Hk Ha. pose proof (consistent_run tr1 w Hrun1) as Hc.
  clear Hrun1.
  assert (Hkeep := run_keeps_job _ _ _ _ _ _ Hrun2 Hk Ha).
  assert (Hgen : ∃ q, prompts (mock w') !! k = Some a ∧ store w' !! a = Some q ∧
       (status_rank (Status p) ≤ status_rank (Status q))%nat ∧
       (Status p = "completed" →
        Status q = "completed" ∧ Output q = Output p ∧ Prompt q = Prompt p)).
  { clear Hkeep. revert w p Hc Hrun2 Hk Ha.
    induction tr2 as [|e tr2 IH]; intros w p Hc; simpl.
    - intros [= <-] ??. by exists p.
    - destruct (exec w e) as [w1|] eqn:He; [|done]. simpl. intros Hrun Hk Ha.
      destruct (exec_advances_job w e w1 k a p Hc He Hk Ha)
        as (q & Hk1 & Ha1 & Hle1 & Hdone1).
      destruct (IH w1 q (consistent_exec _ _ _ Hc He) Hrun Hk1 Ha1)
        as (r & Hk2 & Ha2 & Hle2 & Hdone2).
      exists r. split; [done|]. split; [done|]. split; [lia|].
      intros Hs. destruct (Hdone1 Hs) as (Hs1 & Ho1 & Hp1).
      destruct (Hdone2 Hs1) as (Hs2 & Ho2 & Hp2).
      split; [done|]. split; congruence. }
  destruct Hgen as (q & Hk' & Ha' & Hle & Hdone).
  destruct Hkeep as (q0 & _ & Ha0 & Hsame).
  assert (q0 = q) as -> by congruence.
  exists q. split; [done|]. split; [done|]. split; [done|]. split; [done|].
  intros Hs. by destruct (Hdone Hs) as (Hsq & Ho & _).
Qed.

(** An instance: the completed job of [Window.trace] through the steps of
    [After.steps]. *)
Lemma status_only_advances_witness :
  let p := deref (store Window.final) 0 in
  run init Window.trace = Some Window.final ∧
  run Window.final After.steps = Some After.final ∧
  prompts (mock Window.final) !! Race.kX = Some 0%nat ∧
  store Window.final !! 0%nat = Some p ∧
  Status p = "completed" ∧
  ∃ q, prompts (mock After.final) !! Race.kX = Some 0%nat ∧
       store After.final !! 0%nat = Some q ∧
       same_job p q ∧
       (status_rank (Status p) ≤ status_rank (Status q))%nat ∧
       (Status p = "completed" → Status q = "completed" ∧ Output q = Output p).
Proof.
  intros p.
  split; [vm_compute; reflexivity|].
  split; [vm_compute; reflexivity|].
  split; [vm_compute; reflexivity|].
  split; [vm_compute; reflexivity|].
  split; [vm_compute; reflexivity|].
  apply (status_only_advances Window.trace Window.final After.steps After.final
           Race.kX 0 p).
  - vm_compute; reflexivity.
  - vm_compute; reflexivity.
  - vm_compute; reflexivity.
  - vm_compute; reflexivity.
Defined.

(** ** Panics *)

(** X6. In a reachable world the step of [processPrompt] panics exactly when
    its argument, read at line 164, is nil; no id in the table is too short
    for [promptID[:8]].  A panic changes nothing but ends the process: no
    event can follow. *)
Theorem panic_only_on_nil tr w (i : nat) prompt env w' :
  run init tr = Some w →
  goroutines w !! i = Some (PQ_process prompt) →
  exec w (EvProcess i env) = Some w' →
  (panicked w' = true ↔ prompt = None) ∧
  (panicked w' = true → w' = with_panic w ∧ ∀ e, exec w' e = None).
Proof.
  intros Hrun Hi He. pose proof (consistent_run tr w Hrun) as Hc.
  unfold exec in He. destruct (panicked w) eqn:Hpan; [done|].
  rewrite Hi in He. destruct prompt as [a|].
  - destruct (c_workers w Hc i a Hi) as (p & Ha & _).
    destruct (processPrompt_Some w a p env Hc Ha)
      as (out & calls & err & _ & _ & Hpp).
    rewrite Hpp in He. injection He as <-. simpl. rewrite Hpan.
    split; [split; done|done].
  - simpl in He. injection He as <-. simpl. split; [done|].
    intros _. split; [done|]. intros e. unfold exec. done.
Qed.

(** An instance: the last step of [NilArg.trace]. *)
Lemma panic_only_on_nil_witness :
  run init NilArg.prefix = Some NilArg.before ∧
  goroutines NilArg.before !! 1%nat = Some (PQ_process None) ∧
  exec NilArg.before (EvProcess 1 no_errors) = Some NilArg.final ∧
  (panicked NilArg.final = true ↔ (None : option nat) = None) ∧
  (panicked NilArg.final = true →
   NilArg.final = with_panic NilArg.before ∧ ∀ e, exec NilArg.final e = None).
Proof.
  split; [vm_compute; reflexivity|].
  split; [vm_compute; reflexivity|].
  split; [vm_compute; reflexivity|].
  apply (panic_only_on_nil NilArg.prefix NilArg.before 1 None no_errors
           NilArg.final).
  - vm_compute; reflexivity.
  - vm_compute; reflexivity.
  - vm_compute; reflexivity.
Defined.

(** X7. The panic can happen: there is an execution in which a goroutine
    passes the test of line 163, reads nil at line 164 because the marker
    was cleared in between, and calls [processPrompt] on it. *)
Theorem nil_argument_reachable :
  ∃ tr w (i : nat),
    run init tr = Some w ∧ panicked w = false ∧
    goroutines w !! i = Some (PQ_process None) ∧
    ∀ env, ∃ w', exec w (EvProcess i env) = Some w' ∧ panicked w' = true.
Proof.
  exists NilArg.prefix, NilArg.before, 1%nat.
  split; [vm_compute; reflexivity|].
  split; [vm_compute; reflexivity|].
  split; [vm_compute; reflexivity|].
  intros env. eexists. split; [vm_compute; reflexivity|reflexivity].
Qed.

(** ** The table and the counter *)

Lemma submissions_cons e tr :
  submissions (e :: tr) = ((if is_submit e then 1 else 0) + submissions tr)%nat.
Proof. unfold submissions. simpl. by destruct (is_submit e). Qed.

Lemma clears_cons e tr :
  clears (e :: tr) = ((if is_clear e then 1 else 0) + clears tr)%nat.
Proof. unfold clears. simpl. by destruct (is_clear e). Qed.

Lemma exec_sizes w e w' :
  exec w e = Some w' →
  length (store w') = (length (store w) + if is_submit e then 1 else 0)%nat ∧
  size (prompts (mock w')) =
    (size (prompts (mock w)) + if is_submit e then 1 else 0)%nat ∧
  length (goroutines w') =
    (length (goroutines w) + (if is_submit e then 1 else 0) +
     (if is_clear e then 1 else 0))%nat.
Proof.
  intros [_ Hstep]%exec_step.
  destruct Hstep as [msg u|c pr u Hf|i order Hi Ho|i Hi|i Hi|i prompt env w1 Hi Hp
                    |i prompt env Hi Hp|i Hi]; simpl.
  - lia.
  - rewrite !length_app, map_size_insert_None by done. simpl. lia.
  - unfold processQueue_lock. destruct (runningTask (mock w)); simpl.
    { rewrite length_insert. lia. }
    destruct (first_pending (store w) order); simpl;
      rewrite ?length_alter, length_insert; lia.
  - unfold processQueue_check.
    destruct (runningTask (mock w)); simpl; rewrite length_insert; lia.
  - rewrite length_insert. lia.
  - apply processPrompt_inv in Hp as (b & out & calls & err & _ & _ & _ & ->).
    simpl. rewrite !length_insert. lia.
  - lia.
  - rewrite length_app, length_insert. simpl. lia.
Qed.

Lemma run_sizes w tr w' :
  run w tr = Some w' →
  length (store w') = (length (store w) + submissions tr)%nat ∧
  size (prompts (mock w')) = (size (prompts (mock w)) + submissions tr)%nat ∧
  length (goroutines w') =
    (length (goroutines w) + submissions tr + clears tr)%nat.
Proof.
  revert w. induction tr as [|e tr IH]; intros w; simpl.
  - intros [= <-]. unfold submissions, clears. simpl. lia.
  - destruct (exec w e) as [w1|] eqn:He; [|done]. simpl. intros Hrun.
    destruct (exec_sizes _ _ _ He) as (H1 & H2 & H3).
    destruct (IH _ Hrun) as (H4 & H5 & H6).
    rewrite submissions_cons, clears_cons. lia.
Qed.

(** X10. After any execution the table holds as many jobs as submissions
    were accepted, the counter [m.queueID] is that number, and one
    [processQueue] goroutine has been started for each accepted submission
    and for each run of lines 165-168.  No job ever leaves the table. *)
Theorem table_only_grows tr w :
  run init tr = Some w →
  size (prompts (mock w)) = submissions tr ∧
  length (store w) = submissions tr ∧
  queueID (mock w) = int_wrap (Z.of_nat (submissions tr)) ∧
  length (goroutines w) = (submissions tr + clears tr)%nat ∧
  ∀ tr' w' k (a : nat),
    run w tr' = Some w' → prompts (mock w) !! k = Some a →
    prompts (mock w') !! k = Some a.
Proof.
  intros Hrun. pose proof (consistent_run tr w Hrun) as Hc.
  destruct (run_sizes _ _ _ Hrun) as (H1 & H2 & H3). simpl in *.
  rewrite map_size_empty in H2.
  split; [lia|]. split; [lia|].
  split. { rewrite (c_counter w Hc). f_equal. lia. }
  split; [lia|].
  intros tr' w' k a Hrun' Hk.
  destruct (c_table w Hc k a Hk) as (p & Ha & _).
  by destruct (run_keeps_job _ _ _ _ _ _ Hrun' Hk Ha) as (q & ? & _).
Qed.

(** An instance: the execution [Serial.trace]. *)
Lemma table_only_grows_witness :
  run init Serial.trace = Some Serial.final ∧
  size (prompts (mock Serial.final)) = submissions Serial.trace ∧
  length (store Serial.final) = submissions Serial.trace ∧
  queueID (mock Serial.final) = int_wrap (Z.of_nat (submissions Serial.trace)) ∧
  length (goroutines Serial.final) =
    (submissions Serial.trace + clears Serial.trace)%nat ∧
  ∀ tr' w' k (a : nat),
    run Serial.final tr' = Some w' → prompts (mock Serial.final) !! k = Some a →
    prompts (mock w') !! k = Some a.
Proof.
  split; [vm_compute; reflexivity|].
  apply (table_only_grows Serial.trace Serial.final).
  vm_compute; reflexivity.
Defined.

(** ** What [processPrompt] prints *)

Lemma copy_err_None promptID env calls err :
  copyAndRenameImage promptID env = Some (calls, err) →
  (err = None ↔ os_ok env = true).
Proof.
  unfold copyAndRenameImage. destruct (slice_to promptID 8); [|done].
  destruct env as [[?|] [?|] [?|] [?|]]; simpl; by intros [= <- <-].
Qed.

Lemma exec_stdout w e w' :
  exec w e = Some w' →
  ∃ extra, stdout w' = stdout w ++ extra ∧
           Forall (λ line, ∃ err, line = log_line err) extra ∧
           (length extra ≤ if copies_ok e then 0 else 1)%nat.
Proof.
  intros [_ Hstep]%exec_step.
  assert (Hsame : ∀ w1, stdout w1 = stdout w →
    ∃ extra, stdout w1 = stdout w ++ extra ∧
             Forall (λ line, ∃ err, line = log_line err) extra ∧
             (length extra ≤ if copies_ok e then 0 else 1)%nat).
  { intros w1 ->. exists (@nil string). rewrite app_nil_r.
    split; [done|]. split; [constructor|simpl; lia]. }
  destruct Hstep as [msg u|c pr u Hf|i order Hi Ho|i Hi|i Hi|i prompt env w1 Hi Hp
                    |i prompt env Hi Hp|i Hi]; try (by apply Hsame).
  - apply Hsame. unfold processQueue_lock. destruct (runningTask (mock w)); [done|].
    by destruct (first_pending (store w) order).
  - apply Hsame. unfold processQueue_check. by destruct (runningTask (mock w)).
  - clear Hsame.
    apply processPrompt_inv in Hp as (b & out & calls & err & _ & _ & Hcopy & ->).
    apply copy_err_None in Hcopy. simpl.
    destruct err as [e|].
    + exists (log_line e :: nil). split; [done|].
      split; [repeat constructor; eauto|].
      simpl. destruct (os_ok env); [|lia].
      destruct Hcopy as [_ Hcopy]. by specialize (Hcopy eq_refl).
    + exists (@nil string). split; [done|]. split; [constructor|simpl; lia].
Qed.

(** X12. The one print of main.go, the [fmt.Printf] of line 186, happens
    only when a copy fails: every line it has written is the fixed message
    followed by the error and a newline, there are no more such lines than
    steps of [processPrompt] whose operating system calls failed, and none
    when all of them succeed. *)
Theorem stdout_only_copy_errors tr w :
  run init tr = Some w →
  Forall (λ line, ∃ err, line = "复制和重命名图片时出错: " +:+ err +:+ newline)
    (stdout w) ∧
  (length (stdout w) ≤ length (List.filter (λ e, negb (copies_ok e)) tr))%nat ∧
  (forallb copies_ok tr = true → stdout w = []).
Proof.
  intros Hrun.
  assert (Hgen : ∀ tr w0 w, run w0 tr = Some w →
    ∃ extra, stdout w = stdout w0 ++ extra ∧
      Forall (λ line, ∃ err, line = log_line err) extra ∧
      (length extra ≤ length (List.filter (λ e, negb (copies_ok e)) tr))%nat).
  { clear. induction tr as [|e tr IH]; intros w0 w; simpl.
    - intros [= <-]. exists []. rewrite app_nil_r. split; [done|].
      split; [constructor|simpl; lia].
    - destruct (exec w0 e) as [w1|] eqn:He; [|done]. simpl. intros Hrun.
      destruct (exec_stdout _ _ _ He) as (x1 & E1 & F1 & L1).
      destruct (IH _ _ Hrun) as (x2 & E2 & F2 & L2).
      exists (x1 ++ x2). rewrite E2, E1, app_assoc. split; [done|].
      split; [by apply Forall_app|].
      rewrite length_app. destruct (copies_ok e); simpl in *; lia. }
  destruct (Hgen tr init w Hrun) as (extra & E & F & L). simpl in E. subst extra.
  split; [done|]. split; [done|].
  intros Hall.
  assert (Hnil : List.filter (λ e, negb (copies_ok e)) tr = []).
  { clear -Hall. induction tr as [|e tr IH]; simpl in *; [done|].
    apply andb_prop in Hall as [-> Hall]. simpl. by apply IH. }
  rewrite Hnil in L. simpl in L. destruct (stdout w); [done|simpl in L; lia].
Qed.

(** An instance: the execution [Serial.trace], whose one copy fails. *)
Lemma stdout_only_copy_errors_witness :
  run init Serial.trace = Some Serial.final ∧
  Forall (λ line, ∃ err, line = "复制和重命名图片时出错: " +:+ err +:+ newline)
    (stdout Serial.final) ∧
  (length (stdout Serial.final) ≤
   length (List.filter (λ e, negb (copies_ok e)) Serial.trace))%nat ∧
  (forallb copies_ok Serial.trace = true → stdout Serial.final = []).
Proof.
  split; [vm_compute; reflexivity|].
  apply (stdout_only_copy_errors Serial.trace Serial.final).
  vm_compute; reflexivity.
Defined.

(** ** One worker at a time *)

Lemma lookup_alter_Some_inv (f : PromptInfo → PromptInfo) (st : list PromptInfo)
    (a b : nat) q :
  alter f a st !! b = Some q →
  (b = a ∧ ∃ p, st !! a = Some p ∧ q = f p) ∨ (b ≠ a ∧ st !! b = Some q).
Proof.
  destruct (decide (b = a)) as [->|Hne].
  - rewrite list_lookup_alter_eq. destruct (st !! a) as [p|] eqn:E; [|done].
    simpl. intros [= <-]. left. eauto.
  - rewrite list_lookup_alter_ne by done. auto.
Qed.

Lemma idle_dec c : {idle c} + {¬ idle c}.
Proof.
  destruct c; first [left; by (left + right)|right; by intros [?|?]].
Qed.

Lemma working_idle (st : list PromptInfo) (m : option nat) c : idle c → working st m c.
Proof. by intros [->| ->]. Qed.

Lemma only_processing_None (st : list PromptInfo) (m : option nat) : only_processing st None → only_processing st m.
Proof. intros H b p Hb Hs. by specialize (H b p Hb Hs). Qed.

Lemma only_processing_snoc (st : list PromptInfo) (o : option nat) p :
  only_processing st o → Status p ≠ "processing" → only_processing (st ++ [p]) o.
Proof.
  intros H Hp b q [[_ Hb]|[_ <-]]%lookup_snoc_Some Hs; [by eapply H|done].
Qed.

Lemma working_snoc (st : list PromptInfo) (m : option nat) c p :
  working st m c → Status p ≠ "processing" → working (st ++ [p]) m c.
Proof.
  destruct c; simpl; try done; intros H Hp;
    repeat match goal with H : _ ∧ _ |- _ => destruct H end;
    repeat split; try done; by apply only_processing_snoc.
Qed.

Lemma one_worker_others (st : list PromptInfo) (m : option nat) (gs : list pc)
    (i : nat) ci :
  one_worker st m gs → gs !! i = Some ci → ¬ idle ci →
  ∀ (j : nat) cj, gs !! j = Some cj → j ≠ i → idle cj.
Proof.
  intros Hw Hi Hci j cj Hj Hne. destruct (idle_dec cj) as [|Hcj]; [done|].
  destruct Hne. by eapply (sw_one _ _ _ Hw).
Qed.

Lemma one_worker_sole (gs : list pc) (st' : list PromptInfo) (m' : option nat)
    (i : nat) ci c' :
  gs !! i = Some ci →
  (∀ (j : nat) cj, gs !! j = Some cj → j ≠ i → idle cj) →
  working st' m' c' → only_processing st' m' → (idle c' → m' = None) →
  one_worker st' m' (<[i:=c']> gs).
Proof.
  intros Hi Hothers Hwork Honly Hidle.
  assert (Hlt : (i < length gs)%nat) by (by eapply lookup_lt_Some).
  assert (Hcase : ∀ (j : nat) cj, <[i:=c']> gs !! j = Some cj →
            (j = i ∧ cj = c') ∨ idle cj).
  { intros j cj [(-> & -> & _)|[Hne Hj]]%list_lookup_insert_Some; [by left|].
    right. by eapply Hothers. }
  split.
  - intros j1 j2 c1 c2 [[-> _]|?]%Hcase [[-> _]|?]%Hcase; done.
  - intros Hall. apply Hidle. apply (Hall i). by apply list_lookup_insert_eq.
  - intros j cj [[_ ->]|?]%Hcase; [done|by apply working_idle].
  - done.
Qed.

Lemma one_worker_idle_update (st : list PromptInfo) (m : option nat)
    (gs : list pc) (i : nat) ci c' :
  one_worker st m gs → gs !! i = Some ci → idle ci → idle c' →
  one_worker st m (<[i:=c']> gs).
Proof.
  intros Hw Hi Hci Hc'.
  assert (Hcase : ∀ (j : nat) cj, <[i:=c']> gs !! j = Some cj →
            (j = i ∧ cj = c') ∨ (j ≠ i ∧ gs !! j = Some cj)).
  { intros j cj [(-> & -> & _)|[Hne Hj]]%list_lookup_insert_Some; auto. }
  split.
  - intros j1 j2 c1 c2 [[_ ->]|[_ H1]]%Hcase [[_ ->]|[_ H2]]%Hcase; try done.
    by eapply (sw_one _ _ _ Hw).
  - intros Hall. apply (sw_quiet _ _ _ Hw). intros j cj Hj.
    destruct (decide (j = i)) as [->|Hne]; [congruence|].
    apply (Hall j). by rewrite list_lookup_insert_ne.
  - intros j cj [[_ ->]|[_ Hj]]%Hcase; [by apply working_idle|].
    by eapply (sw_active _ _ _ Hw).
  - apply (sw_marker _ _ _ Hw).
Qed.

Lemma one_worker_spawn (st : list PromptInfo) (m : option nat) (gs : list pc) :
  one_worker st m gs → one_worker st m (gs ++ [PQ_lock]).
Proof.
  intros Hw. split.
  - intros j1 j2 c1 c2 [[_ H1]|[_ <-]]%lookup_snoc_Some
      [[_ H2]|[_ <-]]%lookup_snoc_Some Hn1 Hn2;
      try (by destruct Hn1; left); try (by destruct Hn2; left).
    by eapply (sw_one _ _ _ Hw).
  - intros Hall. apply (sw_quiet _ _ _ Hw). intros j cj Hj.
    apply (Hall j). by apply lookup_app_l_Some.
  - intros j cj [[_ Hj]|[_ <-]]%lookup_snoc_Some; [|done].
    by eapply (sw_active _ _ _ Hw).
  - apply (sw_marker _ _ _ Hw).
Qed.

Lemma one_worker_alloc (st : list PromptInfo) (m : option nat) (gs : list pc) p :
  one_worker st m gs → Status p ≠ "processing" → one_worker (st ++ [p]) m gs.
Proof.
  intros Hw Hp. split.
  - apply (sw_one _ _ _ Hw).
  - apply (sw_quiet _ _ _ Hw).
  - intros j cj Hj. apply working_snoc; [|done]. by eapply (sw_active _ _ _ Hw).
  - apply only_processing_snoc; [|done]. apply (sw_marker _ _ _ Hw).
Qed.

Lemma lock_clear_tail w (i : nat) order (j : nat) cj :
  lock_clear w (EvLock i order) = true → goroutines w !! j = Some cj →
  at_tail cj = false.
Proof.
  simpl. rewrite forallb_forall. intros Hall Hj.
  apply negb_true_iff, Hall, list_elem_of_In. by eapply list_elem_of_lookup_2.
Qed.

Lemma single_worker_step w e w' :
  single_worker w → lock_clear w e = true → step w e w' → single_worker w'.
Proof.
  unfold single_worker. intros Hw Hclear Hstep.
  destruct Hstep as [msg u|c pr u Hf|i order Hi Ho|i Hi|i Hi|i prompt env w1 Hi Hp
                    |i prompt env Hi Hp|i Hi].
  - done.
  - simpl. apply one_worker_spawn. by apply one_worker_alloc.
  - unfold processQueue_lock.
    destruct (runningTask (mock w)) as [r|] eqn:Hr; simpl.
    { rewrite Hr. eapply one_worker_idle_update; [exact Hw|exact Hi|by left|by right]. }
    assert (Hall : ∀ (j : nat) cj, goroutines w !! j = Some cj → idle cj).
    { intros j cj Hj. pose proof (sw_active _ _ _ Hw j cj Hj) as Hwork.
      pose proof (lock_clear_tail _ _ _ _ _ Hclear Hj) as Htail.
      destruct cj; simpl in *; try done; try (by left); try (by right).
      - destruct Hwork as (-> & [? [=]] & _).
      - by destruct Hwork as ([? [=]] & _). }
    assert (Hnone : only_processing (store w) None).
    { apply (sw_marker _ _ _ Hw). }
    destruct (first_pending (store w) order) as [a|] eqn:Hfp; simpl.
    + eapply one_worker_sole; [exact Hi|by eauto| | |by intros [|]].
      * intros b q [(-> & p & _ & ->)|[Hne Hb]]%lookup_alter_Some_inv Hs;
          [done|]. by specialize (Hnone b q Hb Hs).
      * intros b q [(-> & p & _ & ->)|[Hne Hb]]%lookup_alter_Some_inv Hs;
          [done|]. by specialize (Hnone b q Hb Hs).
    + rewrite Hr. eapply one_worker_sole; [exact Hi|by eauto|done|done|by intros [|]].
  - pose proof (sw_active _ _ _ Hw i _ Hi) as Hwork. simpl in Hwork.
    pose proof (one_worker_others _ _ _ _ _ Hw Hi) as Hothers.
    unfold processQueue_check.
    destruct (runningTask (mock w)) as [r|] eqn:Hr; simpl; rewrite Hr.
    + eapply one_worker_sole; [exact Hi|apply Hothers; by intros [|]| |done|by intros [|]].
      simpl. eauto.
    + eapply one_worker_sole; [exact Hi|apply Hothers; by intros [|]|done|done|done].
  - pose proof (sw_active _ _ _ Hw i _ Hi) as Hwork. simpl in Hwork.
    pose proof (one_worker_others _ _ _ _ _ Hw Hi) as Hothers.
    destruct Hwork as [Hsome Honly]. simpl.
    eapply one_worker_sole; [exact Hi|apply Hothers; by intros [|]| |done|by intros [|]].
    simpl. done.
  - pose proof (sw_active _ _ _ Hw i _ Hi) as Hwork. simpl in Hwork.
    pose proof (one_worker_others _ _ _ _ _ Hw Hi) as Hothers.
    destruct Hwork as (-> & Hsome & Honly).
    apply processPrompt_inv in Hp as (b & out & calls & err & Hb & _ & _ & ->).
    simpl.
    assert (Hnone : only_processing
              (<[b:=set_Output (Some out)
                      (set_Status "completed" (deref (store w) b))]> (store w))
              None).
    { intros a q [(-> & <- & _)|[Hne Ha]]%list_lookup_insert_Some Hs; [done|].
      specialize (Honly a q Ha Hs). congruence. }
    eapply one_worker_sole; [exact Hi|apply Hothers; by intros [|]| | |by intros [|]].
    + simpl. done.
    + by apply only_processing_None.
  - done.
  - pose proof (sw_active _ _ _ Hw i _ Hi) as Hwork. simpl in Hwork.
    pose proof (one_worker_others _ _ _ _ _ Hw Hi) as Hothers.
    destruct Hwork as [_ Hnone]. simpl.
    apply one_worker_spawn.
    eapply one_worker_sole; [exact Hi|apply Hothers; by intros [|]|done|done|done].
Qed.

Lemma single_worker_run tr w :
  run init tr = Some w → tails_uninterrupted init tr = true → single_worker w.
Proof.
  assert (Hinit : single_worker init) by (split; simpl; done).
  revert Hinit. generalize init.
  induction tr as [|e tr IH]; intros w0 Hsw; simpl.
  - by intros [= <-].
  - destruct (exec w0 e) as [w1|] eqn:He; [|done]. simpl.
    intros Hrun [Hclear Htails]%andb_prop.
    apply exec_step in He as [_ Hstep].
    apply (IH w1); [|done|done]. by eapply single_worker_step.
Qed.

(** X11. As long as no goroutine takes the lock of line 148 while another
    one is between the unlock of line 161 and the read of line 164, the
    guard of [processQueue] does its work: a job whose status is processing
    is the job of the marker, so that no two jobs are processing at once. *)
Theorem one_job_processing_if_tails_uninterrupted tr w :
  run init tr = Some w → tails_uninterrupted init tr = true →
  (∀ (a : nat) p, store w !! a = Some p → Status p = "processing" →
     runningTask (mock w) = Some a) ∧
  (∀ (a b : nat) p q,
     store w !! a = Some p → store w !! b = Some q →
     Status p = "processing" → Status q = "processing" → a = b).
Proof.
  intros Hrun Htails.
  pose proof (sw_marker _ _ _ (single_worker_run tr w Hrun Htails)) as Honly.
  split; [exact Honly|].
  intros a b p q Ha Hb Hp Hq.
  pose proof (Honly a p Ha Hp). pose proof (Honly b q Hb Hq). congruence.
Qed.

(** An instance: the execution [Serial.trace]. *)
Lemma one_job_processing_if_tails_uninterrupted_witness :
  run init Serial.trace = Some Serial.final ∧
  tails_uninterrupted init Serial.trace = true ∧
  (∀ (a : nat) p, store Serial.final !! a = Some p → Status p = "processing" →
     runningTask (mock Serial.final) = Some a) ∧
  (∀ (a b : nat) p q,
     store Serial.final !! a = Some p → store Serial.final !! b = Some q →
     Status p = "processing" → Status q = "processing" → a = b).
Proof.
  split; [vm_compute; reflexivity|].
  split; [vm_compute; reflexivity|].
  apply (one_job_processing_if_tails_uninterrupted Serial.trace Serial.final).
  - vm_compute; reflexivity.
  - vm_compute; reflexivity.
Defined.

(** X13. Under the same condition on the schedule, a job of the table that
    is not completed is in one of the two lists of every snapshot: in
    queue_pending while it is pending, in queue_running while it is
    processing. *)
Theorem unfinished_job_is_listed tr w order k (a : nat) p :
  run init tr = Some w → tails_uninterrupted init tr = true →
  range_order w order →
  prompts (mock w) !! k = Some a → store w !! a = Some p →
  Status p ≠ "completed" →
  (Status p = "pending" ∧ lists k (queuePending (store w) order)) ∨
  (Status p = "processing" ∧ lists k (queueRunning w)).
Proof.
  intros Hrun Htails Horder Hk Ha Hs.
  pose proof (consistent_run tr w Hrun) as Hc.
  pose proof (sw_marker _ _ _ (single_worker_run tr w Hrun Htails)) as Honly.
  destruct (c_table w Hc k a Hk) as (p' & Ha' & Hid).
  assert (p' = p) as -> by congruence.
  assert (Hentry : entry_job_id (queue_entry p) = Some k) by (by rewrite <- Hid).
  destruct (c_state w Hc a p Ha) as [[Hp _]|[[Hp _]|[Hp _]]]; [left|right|done].
  - split; [done|]. exists (queue_entry p). split; [|done].
    rewrite <- (deref_lookup _ _ _ Ha).
    apply (elem_of_queuePending_2 _ _ k).
    + by apply (range_order_elem_of _ _ _ _ Horder).
    + by rewrite (deref_lookup _ _ _ Ha).
  - split; [done|]. exists (queue_entry p). split; [|done].
    unfold queueRunning. rewrite (Honly a p Ha Hp), (deref_lookup _ _ _ Ha).
    by apply list_elem_of_singleton.
Qed.

(** An instance: the job X of [Serial.trace], which is processing. *)
Lemma unfinished_job_is_listed_witness :
  let p := deref (store Serial.final) 0 in
  run init Serial.trace = Some Serial.final ∧
  tails_uninterrupted init Serial.trace = true ∧
  range_order Serial.final Pair.order1 ∧
  prompts (mock Serial.final) !! Race.kX = Some 0%nat ∧
  store Serial.final !! 0%nat = Some p ∧
  Status p ≠ "completed" ∧
  ((Status p = "pending" ∧
    lists Race.kX (queuePending (store Serial.final) Pair.order1)) ∨
   (Status p = "processing" ∧ lists Race.kX (queueRunning Serial.final))).
Proof.
  intros p.
  split; [vm_compute; reflexivity|].
  split; [vm_compute; reflexivity|].
  split; [compute_done|].
  split; [vm_compute; reflexivity|].
  split; [vm_compute; reflexivity|].
  split; [compute_done|].
  apply (unfinished_job_is_listed Serial.trace Serial.final Pair.order1 Race.kX 0 p).
  - vm_compute; reflexivity.
  - vm_compute; reflexivity.
  - compute_done.
  - vm_compute; reflexivity.
  - vm_compute; reflexivity.
  - compute_done.
Defined.
